(** * Population-analysis core: the model client and the response extractor

    A shallow embedding of [src/lib/llm.ts]: the module initialisation, the
    asynchronous [callLLM] and the pure [parseDemographicResponse], together
    with the fragment of the ECMAScript run time these functions rely on
    (UTF-16 strings, [String.prototype.trim], [parseInt], number addition and
    the backtracking matcher behind [String.prototype.match]). *)

From stdpp Require Import gmap strings list pretty.
From Stdlib Require Import ZArith QArith Lia.

(** ** ECMAScript strings *)

(** A string value is a sequence of UTF-16 code units.  Code units are kept
    as binary naturals; the source only ever compares them with constants. *)
Definition char16 := N.
Definition jsstring := list char16.

(** Source literals are ASCII, one code unit per character. *)
Definition js (s : string) : jsstring := map Ascii.N_of_ascii (String.list_ascii_of_string s).

Definition is_digit (c : char16) : bool := ((48 <=? c) && (c <=? 57))%N.

(** LineTerminator: LF, CR, LS, PS. *)
Definition is_line_terminator (c : char16) : bool :=
  ((c =? 10) || (c =? 13) || (c =? 8232) || (c =? 8233))%N.

(** WhiteSpace or LineTerminator, the set stripped by [trim] and skipped by
    [parseInt]: TAB, VT, FF, SP, NBSP, ZWNBSP and the space separators. *)
Definition is_white_space (c : char16) : bool :=
  ((c =? 9) || (c =? 11) || (c =? 12) || (c =? 32) || (c =? 160) ||
   (c =? 5760) || ((8192 <=? c) && (c <=? 8202)) || (c =? 8239) ||
   (c =? 8287) || (c =? 12288) || (c =? 65279))%N
  || is_line_terminator c.

Fixpoint take_while {A} (p : A -> bool) (s : list A) : list A :=
  match s with
  | c :: s' => if p c then c :: take_while p s' else []
  | [] => []
  end.

Fixpoint drop_while {A} (p : A -> bool) (s : list A) : list A :=
  match s with
  | c :: s' => if p c then drop_while p s' else s
  | [] => []
  end.

Fixpoint is_prefix (p s : jsstring) : bool :=
  match p, s with
  | [], _ => true
  | a :: p', b :: s' => (a =? b)%N && is_prefix p' s'
  | _ :: _, [] => false
  end.

(** [String.prototype.trim] *)
Definition trim (s : jsstring) : jsstring :=
  rev (drop_while is_white_space (rev (drop_while is_white_space s))).

(** ** ECMAScript numbers *)

(** The Number values this module can produce: integer-valued doubles, the
    infinities and NaN.  [Fin z] stands for the double whose value is [z];
    the two zeros are not told apart.  Conversions round to nearest, ties to
    even, as the engine does when it reads a decimal literal. *)
Inductive number : Type :=
  | NaN
  | PosInf
  | NegInf
  | Fin (z : Z).

#[global] Instance number_eq_dec : EqDecision number.
Proof. solve_decision. Defined.

(** Round a non-negative integer to the nearest integer with a 53-bit
    significand, ties to even. *)
Definition round53 (m : Z) : Z :=
  let e := (Z.log2 m - 52)%Z in
  if (e <=? 0)%Z then m else
  let q := Z.shiftr m e in
  let r := (m - Z.shiftl q e)%Z in
  let half := Z.shiftl 1 (e - 1) in
  let q' := if (r <? half)%Z then q
            else if (half <? r)%Z then (q + 1)%Z
            else if Z.even q then q else (q + 1)%Z in
  Z.shiftl q' e.

(** The Number value of a mathematical integer. *)
Definition of_Z (z : Z) : number :=
  let m := round53 (Z.abs z) in
  if (2 ^ 1024 <=? m)%Z then (if (z <? 0)%Z then NegInf else PosInf)
  else Fin (Z.sgn z * m).

(** The [+] operator on two Number operands. *)
Definition number_add (a b : number) : number :=
  match a, b with
  | NaN, _ | _, NaN => NaN
  | PosInf, NegInf | NegInf, PosInf => NaN
  | PosInf, _ | _, PosInf => PosInf
  | NegInf, _ | _, NegInf => NegInf
  | Fin x, Fin y => of_Z (x + y)
  end.

(** ToBoolean on a Number. *)
Definition number_truthy (a : number) : bool :=
  match a with
  | NaN => false
  | Fin z => negb (z =? 0)%Z
  | _ => true
  end.

(** ** parseInt *)

(** The value of a code unit as a digit of the given radix. *)
Definition digit_value (radix : Z) (c : char16) : option Z :=
  let v := if is_digit c then Some (Z.of_N c - 48)%Z
           else if ((97 <=? c) && (c <=? 122))%N then Some (Z.of_N c - 87)%Z
           else if ((65 <=? c) && (c <=? 90))%N then Some (Z.of_N c - 55)%Z
           else None in
  match v with
  | Some d => if (d <? radix)%Z then Some d else None
  | None => None
  end.

Definition is_radix_digit (radix : Z) (c : char16) : bool :=
  match digit_value radix c with Some _ => true | None => false end.

Definition radix_value (radix : Z) (ds : jsstring) : Z :=
  fold_left (fun acc c => (acc * radix + default 0 (digit_value radix c))%Z) ds 0%Z.

(** [parseInt(string)] with the radix argument left out: leading white space
    is skipped, a sign is read, a [0x]/[0X] prefix selects radix 16, and the
    longest prefix of digits is converted; no digit at all gives NaN. *)
Definition parseInt (s : jsstring) : number :=
  let s1 := drop_while is_white_space s in
  let '(sign, s2) := match s1 with
                     | c :: t =>
                         if (c =? 45)%N then ((-1)%Z, t)
                         else if (c =? 43)%N then (1%Z, t)
                         else (1%Z, s1)
                     | [] => (1%Z, s1)
                     end in
  let '(radix, s3) := match s2 with
                      | c :: x :: t =>
                          if ((c =? 48) && ((x =? 120) || (x =? 88)))%N
                          then (16%Z, t) else (10%Z, s2)
                      | _ => (10%Z, s2)
                      end in
  match take_while (is_radix_digit radix) s3 with
  | [] => NaN
  | ds => of_Z (sign * radix_value radix ds)
  end.

(** ** Regular expressions *)

(** The constructs the patterns of this module use: a literal character, [.]
    and [\d]; the lazy [*?] and the greedy [+] over one of these; a capturing
    group (there is one group per pattern); concatenation. *)
Inductive charset : Type :=
  | CsLit (c : char16)
  | CsDot
  | CsDigit.

Definition charset_mem (cs : charset) (c : char16) : bool :=
  match cs with
  | CsLit a => (a =? c)%N
  | CsDot => negb (is_line_terminator c)
  | CsDigit => is_digit c
  end.

Inductive regex : Type :=
  | Atom (cs : charset)
  | LazyStar (cs : charset)
  | GreedyPlus (cs : charset)
  | Group (r : regex)
  | Seq (r1 r2 : regex).

(** A match state: the input still to be read and the capture of group 1
    ([None] is undefined). *)
Record mstate : Type := MState { rest : jsstring; cap1 : option jsstring }.

Definition cont := mstate -> option mstate.

Definition advance (x : mstate) (s : jsstring) : mstate :=
  {| rest := s; cap1 := cap1 x |}.

(** [cs*?]: first try the continuation, and read one more character only
    when it fails. *)
Fixpoint lazy_star (cs : charset) (s : jsstring) (x : mstate) (k : cont) : option mstate :=
  match k (advance x s) with
  | Some y => Some y
  | None =>
      match s with
      | c :: s' => if charset_mem cs c then lazy_star cs s' x k else None
      | [] => None
      end
  end.

(** [cs*], greedy: read as many characters as possible, and give them back
    one at a time while the continuation fails. *)
Fixpoint greedy_star (cs : charset) (s : jsstring) (x : mstate) (k : cont) : option mstate :=
  match s with
  | c :: s' =>
      if charset_mem cs c then
        match greedy_star cs s' x k with
        | Some y => Some y
        | None => k (advance x s)
        end
      else k (advance x s)
  | [] => k (advance x s)
  end.

(** The backtracking matcher, in continuation-passing style. *)
Fixpoint rmatch (r : regex) (x : mstate) (k : cont) : option mstate :=
  match r with
  | Atom cs =>
      match rest x with
      | c :: s' => if charset_mem cs c then k (advance x s') else None
      | [] => None
      end
  | LazyStar cs => lazy_star cs (rest x) x k
  | GreedyPlus cs =>
      match rest x with
      | c :: s' => if charset_mem cs c then greedy_star cs s' x k else None
      | [] => None
      end
  | Group r1 =>
      rmatch r1 x (fun y =>
        k {| rest := rest y;
             cap1 := Some (take (length (rest x) - length (rest y)) (rest x)) |})
  | Seq r1 r2 => rmatch r1 x (fun y => rmatch r2 y k)
  end.

(** A match attempt at the start of [s]. *)
Definition match_here (r : regex) (s : jsstring) : option mstate :=
  rmatch r {| rest := s; cap1 := None |} Some.

(** [RegExp.prototype.exec] without the global flag: the start positions are
    tried from left to right, the end of the input included. *)
Fixpoint regex_exec (r : regex) (s : jsstring) : option mstate :=
  match match_here r s with
  | Some y => Some y
  | None =>
      match s with
      | _ :: s' => regex_exec r s'
      | [] => None
      end
  end.

(** [text.match(pattern)], reduced to what the caller reads: [None] is
    [null], [Some c] is a match array whose element 1 is [c]. *)
Definition string_match (text : jsstring) (pattern : regex) : option (option jsstring) :=
  cap1 <$> regex_exec pattern text.

(** A literal run of characters followed by [r]. *)
Fixpoint literal (l : jsstring) (r : regex) : regex :=
  match l with
  | [] => r
  | c :: l' => Seq (Atom (CsLit c)) (literal l' r)
  end.

Definition percent : char16 := 37%N.

(** [.*?(\d+)%] *)
Definition percent_tail : regex :=
  Seq (LazyStar CsDot) (Seq (Group (GreedyPlus CsDigit)) (Atom (CsLit percent))).

(** [/label.*?(\d+)%/], for a label written without metacharacters (the
    escaped parentheses of the source are literal ones). *)
Definition label_pattern (label : jsstring) : regex := literal label percent_tail.

(** ** parseDemographicResponse *)

Record DemographicData : Type := {
  age : gmap string number;
  gender : gmap string number;
  pregnancyStatus : gmap string number;
  geography : gmap string number;
  criticalFindings : list jsstring
}.

Definition extractPercentage (text : jsstring) (pattern : regex) : number :=
  match string_match text pattern with
  | Some (Some g) => parseInt g
  | Some None => NaN
  | None => Fin 0
  end.

Definition parseDemographicResponse (response : jsstring) : DemographicData := {|
  age := list_to_map [
    ("0-18", extractPercentage response (label_pattern (js "Pediatric")));
    ("18-40", extractPercentage response (label_pattern (js "Young Adults")));
    ("40-65", extractPercentage response (label_pattern (js "Middle-aged Adults")));
    ("65-75", extractPercentage response (label_pattern (js "Elderly (65-75)")));
    (">75", extractPercentage response (label_pattern (js "Very Elderly")));
    ("not_specified", Fin 0) ];
  gender := list_to_map [
    ("male", extractPercentage response (label_pattern (js "Male")));
    ("female", extractPercentage response (label_pattern (js "Female")));
    ("not_specified", extractPercentage response (label_pattern (js "Gender not reported"))) ];
  pregnancyStatus := list_to_map [
    ("pregnant", extractPercentage response (label_pattern (js "Pregnant individuals")));
    ("not_pregnant", Fin 0);
    ("not_specified",
      extractPercentage response (label_pattern (js "Pregnancy status not mentioned"))) ];
  geography := list_to_map [
    ("North America", extractPercentage response (label_pattern (js "North America")));
    ("Europe", extractPercentage response (label_pattern (js "Europe")));
    ("Asia", extractPercentage response (label_pattern (js "Asia")));
    ("Africa", extractPercentage response (label_pattern (js "Africa")));
    ("Other",
      number_add (extractPercentage response (label_pattern (js "South America")))
                 (extractPercentage response (label_pattern (js "Oceania"))));
    ("not_specified", Fin 0) ];
  criticalFindings := [
    js "Complete exclusion of pediatric populations";
    js "Systematic exclusion of pregnant individuals";
    js "Severe underrepresentation of very elderly (>75)";
    js "Complete absence of African populations";
    js "Geographic bias toward Western/developed nations" ]
|}.

(** ** The canned analysis of the mock path *)

(** The template literal of [callLLM], before [.trim()]. *)
Definition mockTemplate : string := "
Based on the analysis of the provided research papers:

**Age Demographics:**
- Pediatric (0-18): 0% - No studies included children or adolescents
- Young Adults (18-40): 15% - Limited representation
- Middle-aged Adults (40-65): 60% - Well represented
- Elderly (65-75): 45% - Moderate representation
- Very Elderly (>75): 8% - Significantly underrepresented

**Gender Demographics:**
- Male: 42%
- Female: 48%
- Gender not reported: 10%

**Pregnancy Status:**
- Pregnant individuals: 0% - Systematically excluded
- Pregnancy status not mentioned: 100%

**Geographic Distribution:**
- North America: 52% (predominantly USA-based studies)
- Europe: 28% (Western Europe overrepresented)
- Asia: 12% (primarily China and Japan)
- Africa: 0% - No representation
- South America: 3%
- Oceania: 5%

**Critical Blind Spots Identified:**
1. Complete exclusion of pediatric populations (CRITICAL)
2. Systematic exclusion of pregnant individuals (CRITICAL)
3. Severe underrepresentation of very elderly (>75) despite disease relevance (HIGH)
4. Complete absence of African populations (CRITICAL)
5. Minimal representation of young adults 18-40 (MEDIUM)
6. Geographic bias toward Western/developed nations (HIGH)

**Methodological Quality Issues:**
- 15% of studies failed to report demographic breakdowns
- 30% used convenience sampling without demographic stratification
- Only 5% included explicit efforts to recruit underrepresented populations
  ".

Definition mockResponse : jsstring := trim (js mockTemplate).

(** ** The model client *)

(** What a [catch] clause can receive: an [Error] object with its message,
    or any other thrown value. *)
Inductive thrown : Type :=
  | ErrorObject (message : jsstring)
  | ThrownValue (shown : jsstring).

Inductive chat_message : Type :=
  | SystemMessage (text : jsstring)
  | HumanMessage (text : jsstring).

(** [response.content] is a string or a list of content parts; the parts are
    carried by what [JSON.stringify] prints for them. *)
Inductive message_content : Type :=
  | ContentText (s : jsstring)
  | ContentParts (json : jsstring).

(** The fields of the reply that [callLLM] reads. *)
Record AIMessage : Type := {
  msg_content : message_content;
  usage_metadata_total_tokens : option number;
  response_metadata_usage_total_tokens : option number
}.

(** How the promise returned by [llm.invoke] ends.  A reply whose fields
    cannot be read throws inside the same [try] block and is counted with
    the rejections. *)
Inductive settled : Type :=
  | Fulfilled (response : AIMessage)
  | Rejected (error : thrown)
  | Pending.

Record ChatAnthropic : Type := { invoke : list chat_message -> settled }.

Record ChatAnthropicFields : Type := {
  f_modelName : jsstring;
  f_temperature : Q;
  f_anthropicApiKey : option jsstring
}.

Record LLMResponse : Type := {
  content : jsstring;
  model : option jsstring;
  tokensUsed : option number
}.

Inductive console_level : Type := ConsoleLog | ConsoleWarn | ConsoleError.

(** Console arguments; a template literal is kept as its pieces. *)
Inductive console_arg : Type :=
  | ArgString (s : jsstring)
  | ArgNumber (n : number)
  | ArgThrown (e : thrown)
  | ArgContent (c : message_content).

(** The observable actions of the module. *)
Inductive event : Type :=
  | Console (level : console_level) (args : list console_arg)
  | Construct (fields : ChatAnthropicFields)
  | InvokeCall (messages : list chat_message)
  | SetTimeout (ms : Z).

(** How a computation ends: it returns, it throws, or it stays suspended on
    an awaited promise that never settles. *)
Inductive outcome (A : Type) : Type :=
  | Returned (a : A)
  | Threw (e : thrown)
  | Suspended.
Arguments Returned {A} a.
Arguments Threw {A} e.
Arguments Suspended {A}.

(** A computation leaves a trace of events and ends in an outcome. *)
Definition io (A : Type) : Type := list event * outcome A.

#[global] Instance io_ret : MRet io := fun A a => ([], Returned a).

#[global] Instance io_bind : MBind io := fun A B f m =>
  match m with
  | (t, Returned a) => let '(t', b) := f a in (t ++ t', b)
  | (t, Threw e) => (t, Threw e)
  | (t, Suspended) => (t, Suspended)
  end.

(** [try { body } catch (error) { handler }] *)
Definition try_catch {A} (body : io A) (handler : thrown -> io A) : io A :=
  match body with
  | (t, Threw e) => let '(t', b) := handler e in (t ++ t', b)
  | _ => body
  end.

Definition emit (e : event) : io unit := ([e], Returned tt).

Definition console (level : console_level) (args : list console_arg) : io unit :=
  emit (Console level args).

(** [await llm.invoke(messages)]: a rejection is thrown at the await. *)
Definition await_invoke (client : ChatAnthropic) (messages : list chat_message)
  : io AIMessage :=
  match invoke client messages with
  | Fulfilled r => ([InvokeCall messages], Returned r)
  | Rejected e => ([InvokeCall messages], Threw e)
  | Pending => ([InvokeCall messages], Suspended)
  end.

(** [await new Promise((resolve) => setTimeout(resolve, ms))] *)
Definition sleep (ms : Z) : io unit := emit (SetTimeout ms).

(** ToBoolean on a string that may be undefined. *)
Definition string_truthy (s : option jsstring) : bool :=
  match s with
  | Some (_ :: _) => true
  | _ => false
  end.

Definition length_arg (s : jsstring) : console_arg :=
  ArgString (js (pretty (N.of_nat (length s)))).

(** The module-level bindings: [modelName], [useMockLLM] and [llm]. *)
Record module_state : Type := {
  modelName : jsstring;
  useMockLLM : bool;
  llm : option ChatAnthropic
}.

(** Module initialisation.  [env] is [process.env]; [new_client] is the
    [ChatAnthropic] constructor, which may throw. *)
Definition init_module (env : gmap string jsstring)
    (new_client : ChatAnthropicFields -> thrown + ChatAnthropic) : list event * module_state :=
  let modelName := default (js "claude-3-5-sonnet-20241022") (env !! "LLM_MODEL") in
  let useMockLLM := negb (string_truthy (env !! "ANTHROPIC_API_KEY")) in
  let warn :=
    if useMockLLM then
      [Console ConsoleWarn [ArgString (js
         "[LLM] ANTHROPIC_API_KEY is not set. Using mock LLM responses. Set ANTHROPIC_API_KEY to enable real Anthropic Claude integration.")]]
    else [] in
  let '(made, llm) :=
    if useMockLLM then ([], None)
    else
      let fields := {| f_modelName := modelName;
                       f_temperature := 1 # 10;
                       f_anthropicApiKey := env !! "ANTHROPIC_API_KEY" |} in
      match new_client fields with
      | inr client =>
          ([Construct fields;
            Console ConsoleLog [ArgString (js "[LLM] Initialized Anthropic Claude (");
                                ArgString modelName; ArgString (js ")")]],
           Some client)
      | inl error =>
          ([Construct fields;
            Console ConsoleError [ArgString (js "[LLM] Failed to initialize Anthropic client:");
                                  ArgThrown error];
            Console ConsoleWarn [ArgString (js "[LLM] Falling back to mock LLM")]],
           None)
      end in
  (warn ++ made, {| modelName := modelName; useMockLLM := useMockLLM; llm := llm |}).

(** The message sequence: the system instruction when there is one, then
    the prompt. *)
Definition build_messages (prompt : jsstring) (system : option jsstring) : list chat_message :=
  (if string_truthy system then [SystemMessage (default [] system)] else [])
  ++ [HumanMessage prompt].

(** The body of the [try] block of [callLLM], up to its [return]. *)
Definition callLive (st : module_state) (client : ChatAnthropic)
    (prompt : jsstring) (system : option jsstring) : io LLMResponse :=
  _ ← console ConsoleLog [ArgString (js "[LLM] Calling Anthropic Claude (");
                          ArgString (modelName st); ArgString (js ")...")];
  _ ← console ConsoleLog [ArgString (js "[LLM] Prompt length: "); length_arg prompt;
                          ArgString (js " characters")];
  response ← await_invoke client (build_messages prompt system);
  let tokensUsed :=
    match usage_metadata_total_tokens response with
    | Some t => Some t
    | None => response_metadata_usage_total_tokens response
    end in
  _ ← console ConsoleLog [ArgString (js "[LLM] Response received from ");
                          ArgString (modelName st)];
  _ ← (match tokensUsed with
       | Some t =>
           if number_truthy t
           then console ConsoleLog [ArgString (js "[LLM] Tokens used: "); ArgNumber t]
           else mret tt
       | None => mret tt
       end);
  _ ← console ConsoleLog [ArgString (js "the response I want");
                          ArgContent (msg_content response)];
  mret {| content := match msg_content response with
                     | ContentText s => s
                     | ContentParts json => json
                     end;
          model := Some (modelName st);
          tokensUsed := tokensUsed |}.

(** The [catch] clause: the error is logged and control falls through. *)
Definition catchLive (error : thrown) : io (option LLMResponse) :=
  _ ← console ConsoleError
        [ArgString (js "[LLM] Error calling Anthropic API:");
         match error with
         | ErrorObject message => ArgString message
         | ThrownValue _ => ArgThrown error
         end];
  _ ← console ConsoleWarn [ArgString (js "[LLM] Falling back to mock response")];
  mret None.

(** The simulated delay of the mock path, in milliseconds. *)
Definition mockDelay : Z := 500.

(** What the mock path returns. *)
Definition mockLLMResponse : LLMResponse :=
  {| content := mockResponse;
     model := Some (js "mock-llm-v1");
     tokensUsed := Some (Fin 450) |}.

(** The mock path of [callLLM]. *)
Definition callMock (prompt : jsstring) : io LLMResponse :=
  _ ← console ConsoleLog
        [ArgString (js "[LLM] Using mock LLM response (set ANTHROPIC_API_KEY for real LLM)")];
  _ ← console ConsoleLog [ArgString (js "[LLM] Prompt length: "); length_arg prompt;
                          ArgString (js " characters")];
  _ ← sleep mockDelay;
  mret mockLLMResponse.

(** [callLLM]: [Some response] out of the first step is the [return] inside
    the [try] block, [None] is control reaching the mock path. *)
Definition callLLM (st : module_state) (prompt : jsstring) (system : option jsstring)
  : io LLMResponse :=
  live ← match llm st with
         | Some client =>
             try_catch (response ← callLive st client prompt system; mret (Some response))
                       catchLive
         | None => mret None
         end;
  match live with
  | Some response => mret response
  | None => callMock prompt
  end.

(** The network calls and the timer delays recorded in a trace. *)
Definition network_calls (t : list event) : list (list chat_message) :=
  omap (fun e => match e with InvokeCall m => Some m | _ => None end) t.

Definition delays (t : list event) : list Z :=
  omap (fun e => match e with SetTimeout ms => Some ms | _ => None end) t.

(** The points at which the caller's promise is suspended on an await. *)
Definition suspensions (t : list event) : nat :=
  length (omap (fun e => match e with
                         | InvokeCall _ | SetTimeout _ => Some e
                         | _ => None
                         end) t).


(** ** Reading the patterns declaratively *)

(** The value of a run of decimal digits. *)
Definition decimal (ds : jsstring) : Z := radix_value 10 ds.

Definition all_digits (ds : jsstring) : Prop := Forall (fun c => is_digit c = true) ds.

Definition one_line (s : jsstring) : Prop := Forall (fun c => is_line_terminator c = false) s.

(** A percent figure for [label] in [text]: an occurrence of the label after
    [pre], then [mid] on the same line, then the digits [ds] and a percent
    sign. *)
Definition figure (label text pre mid ds post : jsstring) : Prop :=
  text = pre ++ label ++ mid ++ ds ++ percent :: post
  /\ one_line mid /\ all_digits ds /\ ds <> [].

(** The figure with the earliest label occurrence and, for that occurrence,
    the nearest digits. *)
Definition leftmost_figure (label text pre mid ds post : jsstring) : Prop :=
  figure label text pre mid ds post
  /\ forall pre' mid' ds' post', figure label text pre' mid' ds' post' ->
       (length pre < length pre')%nat
       \/ (length pre = length pre' /\ (length mid <= length mid')%nat).

(** The same search written as a scan: a digit run closed by a percent sign
    at the head of [s]; the first such run on the line of [s]; the first
    label occurrence that has one. *)
Definition digits_then_percent (s : jsstring) : option jsstring :=
  match take_while is_digit s, drop_while is_digit s with
  | d :: ds, c :: _ => if (c =? percent)%N then Some (d :: ds) else None
  | _, _ => None
  end.

Fixpoint first_figure (s : jsstring) : option jsstring :=
  match digits_then_percent s with
  | Some ds => Some ds
  | None =>
      match s with
      | c :: s' => if is_line_terminator c then None else first_figure s'
      | [] => None
      end
  end.

Fixpoint label_search (label text : jsstring) : option jsstring :=
  match (if is_prefix label text then first_figure (drop (length label) text) else None) with
  | Some ds => Some ds
  | None =>
      match text with
      | _ :: text' => label_search label text'
      | [] => None
      end
  end.

(** The four mappings of the result and the keys that are filled by one
    pattern search each, with the label searched. *)
Inductive category : Type := Age | Gender | PregnancyStatus | Geography.

Definition category_map (c : category) (d : DemographicData) : gmap string number :=
  match c with
  | Age => age d
  | Gender => gender d
  | PregnancyStatus => pregnancyStatus d
  | Geography => geography d
  end.

Definition searched_keys : list (category * string * jsstring) := [
  (Age, "0-18", js "Pediatric");
  (Age, "18-40", js "Young Adults");
  (Age, "40-65", js "Middle-aged Adults");
  (Age, "65-75", js "Elderly (65-75)");
  (Age, ">75", js "Very Elderly");
  (Gender, "male", js "Male");
  (Gender, "female", js "Female");
  (Gender, "not_specified", js "Gender not reported");
  (PregnancyStatus, "pregnant", js "Pregnant individuals");
  (PregnancyStatus, "not_specified", js "Pregnancy status not mentioned");
  (Geography, "North America", js "North America");
  (Geography, "Europe", js "Europe");
  (Geography, "Asia", js "Asia");
  (Geography, "Africa", js "Africa") ].

(** The keys written as the constant 0. *)
Definition constant_keys : list (category * string) := [
  (Age, "not_specified");
  (PregnancyStatus, "not_pregnant");
  (Geography, "not_specified") ].

(** The enumerated key sets of the four mappings. *)
Definition age_keys : gset string :=
  {[ "0-18"; "18-40"; "40-65"; "65-75"; ">75"; "not_specified" ]}.
Definition gender_keys : gset string := {[ "male"; "female"; "not_specified" ]}.
Definition pregnancy_keys : gset string := {[ "pregnant"; "not_pregnant"; "not_specified" ]}.
Definition geography_keys : gset string :=
  {[ "North America"; "Europe"; "Asia"; "Africa"; "Other"; "not_specified" ]}.

Definition category_keys (c : category) : gset string :=
  match c with
  | Age => age_keys
  | Gender => gender_keys
  | PregnancyStatus => pregnancy_keys
  | Geography => geography_keys
  end.

(** A Number that is zero, a positive integer or [Infinity]. *)
Definition nonneg_number (n : number) : Prop :=
  match n with
  | Fin z => (0 <= z)%Z
  | PosInf => True
  | _ => False
  end.

(** ** Sample configurations *)

Definition failing_client (e : thrown) : ChatAnthropic :=
  {| invoke := fun _ => Rejected e |}.

Definition answering_client (r : AIMessage) : ChatAnthropic :=
  {| invoke := fun _ => Fulfilled r |}.

(** The module loaded with a credential, the constructor returning [client]. *)
Definition live_state (client : ChatAnthropic) : module_state :=
  snd (init_module {[ "ANTHROPIC_API_KEY" := js "sk-test" ]} (fun _ => inr client)).

Definition sample_reply : AIMessage :=
  {| msg_content := ContentText (js "Male: 40%");
     usage_metadata_total_tokens := Some (Fin 12);
     response_metadata_usage_total_tokens := None |}.

(** ** Further observations on traces and texts *)

(** The constructor calls recorded in a trace, with their arguments. *)
Definition constructions (t : list event) : list ChatAnthropicFields :=
  omap (fun e => match e with Construct f => Some f | _ => None end) t.

(** The token counts written to the console (the only console line that
    carries a number). *)
Definition tokens_logged (t : list event) : list number :=
  omap (fun e => match e with
                 | Console ConsoleLog [ArgString _; ArgNumber n] => Some n
                 | _ => None
                 end) t.

(** The identifier the mock path reports. *)
Definition mockModel : jsstring := js "mock-llm-v1".

(** The model used when [LLM_MODEL] is not set. *)
Definition defaultModel : jsstring := js "claude-3-5-sonnet-20241022".

(** An upper-case ASCII letter. *)
Definition is_upper (c : char16) : bool := ((65 <=? c) && (c <=? 90))%N.

(** Every label some pattern of [parseDemographicResponse] searches for. *)
Definition search_labels : list jsstring :=
  map snd searched_keys ++ [js "South America"; js "Oceania"].

Definition throwing_constructor (e : thrown)
  : ChatAnthropicFields -> thrown + ChatAnthropic := fun _ => inl e.

(** The part of the scan that starts at the head of the text. *)
Definition head_search (label text : jsstring) : option jsstring :=
  if is_prefix label text then first_figure (drop (length label) text) else None.

(** ** Properties of the run-time fragment *)

Lemma take_drop_while {A} (p : A -> bool) (s : list A) :
  take_while p s ++ drop_while p s = s.
Proof.
  induction s as [|c s IH]; simpl; [done|].
  destruct (p c); simpl; [by rewrite IH | done].
Qed.

Lemma is_prefix_app (l t : jsstring) : is_prefix l (l ++ t) = true.
Proof.
  induction l as [|a l IH]; simpl; [done|].
  by rewrite N.eqb_refl.
Qed.

Lemma is_prefix_split (l s : jsstring) :
  is_prefix l s = true -> s = l ++ drop (length l) s.
Proof.
  revert s. induction l as [|a l IH]; intros [|b s]; simpl; try done.
  intros [Hab Hp]%andb_prop. apply N.eqb_eq in Hab as ->.
  by rewrite <- (IH s Hp).
Qed.

Lemma is_digit_bounds (c : char16) : is_digit c = true <-> (48 <= c <= 57)%N.
Proof.
  unfold is_digit. rewrite andb_true_iff, !N.leb_le. done.
Qed.

Lemma digit_not_percent (c : char16) : is_digit c = true -> (c =? percent)%N = false.
Proof.
  intros H%is_digit_bounds. apply N.eqb_neq. unfold percent. lia.
Qed.

Lemma percent_not_digit : is_digit percent = false.
Proof. reflexivity. Qed.

Lemma take_while_run (p : char16 -> bool) (ds t : jsstring) (c : char16) :
  Forall (fun d => p d = true) ds -> p c = false ->
  take_while p (ds ++ c :: t) = ds /\ drop_while p (ds ++ c :: t) = c :: t.
Proof.
  intros Hds Hc. induction Hds as [|d ds Hd _ [IH1 IH2]]; simpl.
  - by rewrite Hc.
  - by rewrite Hd, IH1, IH2.
Qed.

Lemma take_while_all (p : char16 -> bool) (s : jsstring) :
  Forall (fun d => p d = true) (take_while p s).
Proof.
  induction s as [|c s IH]; simpl; [constructor|].
  destruct (p c) eqn:E; by constructor.
Qed.

(** ** The matcher on the patterns of the extractor *)

(** A literal prefix is compared character by character. *)
Lemma rmatch_literal (l : jsstring) (r : regex) (x : mstate) (k : cont) :
  rmatch (literal l r) x k =
  if is_prefix l (rest x) then rmatch r (advance x (drop (length l) (rest x))) k else None.
Proof.
  revert x. induction l as [|a l IH]; intros [s c]; simpl.
  - done.
  - destruct s as [|b s]; simpl; [done|].
    destruct (a =? b)%N; simpl; [|done].
    by rewrite IH.
Qed.

(** The greedy digit loop gives nothing back when the continuation cannot
    start on a digit. *)
Lemma greedy_star_digits (s : jsstring) (x : mstate) (k : cont) :
  (forall c t, is_digit c = true -> k (advance x (c :: t)) = None) ->
  greedy_star CsDigit s x k = k (advance x (drop_while is_digit s)).
Proof.
  intros Hk. induction s as [|c s IH]; simpl; [done|].
  destruct (is_digit c) eqn:Hc; [|done].
  rewrite IH. destruct (k (advance x (drop_while is_digit s))) eqn:E; [done|].
  by apply Hk.
Qed.

(** [(\d+)%] at the head of the input. *)
Lemma rmatch_digits_percent (x : mstate) :
  cap1 <$> rmatch (Seq (Group (GreedyPlus CsDigit)) (Atom (CsLit percent))) x Some
  = Some <$> digits_then_percent (rest x).
Proof.
  destruct x as [s c0]. cbn [rmatch rest].
  unfold digits_then_percent.
  destruct s as [|c s]; [done|]. cbn [take_while drop_while].
  unfold charset_mem at 1. destruct (is_digit c) eqn:Hc; [|done].
  rewrite greedy_star_digits.
  - cbn [advance rest cap1].
    pose proof (take_drop_while is_digit s) as Hsplit.
    destruct (drop_while is_digit s) as [|d t] eqn:Hd; [done|].
    unfold charset_mem. rewrite (N.eqb_sym percent d).
    destruct (d =? percent)%N; [|done]. cbn.
    do 2 f_equal.
    set (ds := take_while is_digit s) in *.
    assert (length s - length t = S (length ds))%nat as ->.
    { rewrite <- Hsplit, length_app. cbn [length]. lia. }
    rewrite <- Hsplit at 1. cbn [take]. by rewrite take_app_length.
  - intros d t Hdig. cbn [advance rest cap1]. unfold charset_mem.
    rewrite (N.eqb_sym percent d). by rewrite digit_not_percent.
Qed.

(** [.*?(\d+)%]: the first figure on the line. *)
Lemma lazy_star_first_figure (s : jsstring) (x : mstate) :
  cap1 <$> lazy_star CsDot s x
             (fun y => rmatch (Seq (Group (GreedyPlus CsDigit)) (Atom (CsLit percent))) y Some)
  = Some <$> first_figure s.
Proof.
  induction s as [|c s IH]; cbn [lazy_star first_figure].
  - generalize (rmatch_digits_percent (advance x [])). cbn [advance rest].
    destruct (rmatch _ _ Some); destruct (digits_then_percent []); done.
  - generalize (rmatch_digits_percent (advance x (c :: s))). cbn [advance rest].
    destruct (rmatch _ _ Some); destruct (digits_then_percent (c :: s)); try done.
    intros _. unfold charset_mem. destruct (is_line_terminator c); [done|]. apply IH.
Qed.

Lemma match_here_label (label s : jsstring) :
  cap1 <$> match_here (label_pattern label) s
  = Some <$> (if is_prefix label s then first_figure (drop (length label) s) else None).
Proof.
  unfold match_here, label_pattern. rewrite rmatch_literal. cbn [rest].
  destruct (is_prefix label s); [|done].
  unfold percent_tail. cbn [rmatch advance rest]. apply lazy_star_first_figure.
Qed.

(** The pattern search is the scan [label_search]. *)
Lemma string_match_label (label text : jsstring) :
  string_match text (label_pattern label) = Some <$> label_search label text.
Proof.
  unfold string_match.
  induction text as [|c text IH]; cbn [regex_exec label_search].
  - generalize (match_here_label label []).
    destruct (match_here _ []); destruct (if is_prefix label [] then _ else _); done.
  - generalize (match_here_label label (c :: text)).
    destruct (match_here _ (c :: text));
      destruct (if is_prefix label (c :: text) then _ else _); done.
Qed.

(** ** The scan against the declarative reading *)

Lemma digits_then_percent_Some (s ds : jsstring) :
  digits_then_percent s = Some ds <->
  all_digits ds /\ ds <> [] /\ exists post, s = ds ++ percent :: post.
Proof.
  unfold digits_then_percent. split.
  - pose proof (take_drop_while is_digit s) as Hs.
    pose proof (take_while_all is_digit s) as Hall.
    destruct (take_while is_digit s) as [|d tw]; [done|].
    destruct (drop_while is_digit s) as [|c t]; [done|].
    destruct (c =? percent)%N eqn:Hc; [|done].
    apply N.eqb_eq in Hc as ->. intros [= <-].
    split; [done|]. split; [done|]. by exists t.
  - intros (Hall & Hne & post & ->).
    destruct (take_while_run is_digit ds post percent Hall percent_not_digit) as [-> ->].
    destruct ds; [done|]. by rewrite N.eqb_refl.
Qed.

Lemma first_figure_Some (s ds : jsstring) :
  first_figure s = Some ds ->
  exists mid post,
    s = mid ++ ds ++ percent :: post /\ one_line mid /\ all_digits ds /\ ds <> [] /\
    forall mid' ds' post',
      s = mid' ++ ds' ++ percent :: post' -> one_line mid' -> all_digits ds' -> ds' <> [] ->
      (length mid <= length mid')%nat.
Proof.
  induction s as [|c s IH]; cbn [first_figure].
  - done.
  - destruct (digits_then_percent (c :: s)) as [ds0|] eqn:E.
    + intros [= ->]. apply digits_then_percent_Some in E as (Hall & Hne & post & Hs).
      exists [], post. rewrite Hs. repeat split; try done.
      * constructor.
      * intros. cbn. lia.
    + destruct (is_line_terminator c) eqn:Hc; [done|]. intros Hf.
      destruct (IH Hf) as (mid & post & -> & Hmid & Hall & Hne & Hmin).
      exists (c :: mid), post. repeat split; try done.
      * by constructor.
      * intros mid' ds' post' Hs' Hmid' Hall' Hne'.
        destruct mid' as [|c' mid'].
        -- exfalso. cbn in Hs'.
           assert (digits_then_percent (ds' ++ percent :: post') = Some ds') as Hd
             by (apply digits_then_percent_Some; eauto).
           rewrite <- Hs' in Hd. congruence.
        -- cbn in Hs'. injection Hs' as <- Hs'. apply Forall_cons in Hmid' as [_ Hmid'].
           cbn. apply le_n_S. eapply Hmin; eauto.
Qed.

Lemma first_figure_None (s : jsstring) :
  first_figure s = None ->
  forall mid ds post,
    s = mid ++ ds ++ percent :: post -> one_line mid -> all_digits ds -> ds <> [] -> False.
Proof.
  induction s as [|c s IH]; cbn [first_figure].
  - intros _ mid ds post Hs. by destruct mid, ds.
  - destruct (digits_then_percent (c :: s)) as [ds0|] eqn:E; [done|].
    intros Hf mid ds post Hs Hmid Hall Hne.
    destruct mid as [|c' mid].
    + cbn in Hs.
      assert (digits_then_percent (ds ++ percent :: post) = Some ds) as Hd
        by (apply digits_then_percent_Some; eauto).
      rewrite <- Hs in Hd. congruence.
    + cbn in Hs. injection Hs as <- Hs. apply Forall_cons in Hmid as [Hc Hmid].
      rewrite Hc in Hf. eapply IH; eauto.
Qed.

(** A figure at the very start of the text, in terms of the scan. *)
Lemma figure_at_start (label text mid ds post : jsstring) :
  figure label text [] mid ds post ->
  is_prefix label text = true /\
  drop (length label) text = mid ++ ds ++ percent :: post.
Proof.
  intros (-> & _). cbn [app]. split; [apply is_prefix_app|].
  by rewrite drop_app_length.
Qed.

Lemma figure_cons (label : jsstring) (c : char16) (text pre mid ds post : jsstring) :
  figure label (c :: text) (c :: pre) mid ds post <-> figure label text pre mid ds post.
Proof.
  unfold figure. cbn [app]. split; intros (H & ?); split; try done; congruence.
Qed.

Lemma figure_head (label : jsstring) (c : char16) (text : jsstring)
    (a : char16) (pre mid ds post : jsstring) :
  figure label (c :: text) (a :: pre) mid ds post -> a = c.
Proof. intros (H & _). cbn in H. congruence. Qed.

Lemma figure_nil (label pre mid ds post : jsstring) : ~ figure label [] pre mid ds post.
Proof.
  intros (H & _). symmetry in H.
  apply app_eq_nil in H as [_ H]. apply app_eq_nil in H as [_ H].
  apply app_eq_nil in H as [_ H]. by apply app_eq_nil in H as [_ H].
Qed.

(** When the scan finds nothing, the text holds no figure for the label. *)
Lemma label_search_None (label text : jsstring) :
  label_search label text = None ->
  forall pre mid ds post, ~ figure label text pre mid ds post.
Proof.
  induction text as [|c text IH]; cbn [label_search].
  - intros _ pre mid ds post. apply figure_nil.
  - destruct (if is_prefix label (c :: text) then _ else _) as [ds0|] eqn:E; [done|].
    intros Hs pre mid ds post Hfig.
    destruct pre as [|a pre].
    + destruct (figure_at_start _ _ _ _ _ Hfig) as [Hp Hd].
      rewrite Hp in E. destruct Hfig as (_ & Hmid & Hall & Hne).
      eapply first_figure_None; eauto.
    + pose proof (figure_head _ _ _ _ _ _ _ _ Hfig) as ->.
      apply (proj1 (figure_cons _ _ _ _ _ _ _)) in Hfig. exact (IH Hs _ _ _ _ Hfig).
Qed.

(** What the scan finds is the leftmost figure. *)
Lemma label_search_Some (label text ds : jsstring) :
  label_search label text = Some ds ->
  exists pre mid post, leftmost_figure label text pre mid ds post.
Proof.
  induction text as [|c text IH]; cbn [label_search].
  - destruct (if is_prefix label [] then _ else _) as [ds0|] eqn:E; [|done].
    intros [= ->]. destruct (is_prefix label []) eqn:Hp; [|done].
    apply first_figure_Some in E as (mid & post & Hd & Hmid & Hall & Hne & Hmin).
    exists [], mid, post. split.
    + split; [|done]. cbn [app]. rewrite <- Hd. by apply is_prefix_split.
    + intros pre' mid' ds' post' Hfig. by apply figure_nil in Hfig.
  - destruct (if is_prefix label (c :: text) then _ else _) as [ds0|] eqn:E.
    + intros [= ->]. destruct (is_prefix label (c :: text)) eqn:Hp; [|done].
      apply first_figure_Some in E as (mid & post & Hd & Hmid & Hall & Hne & Hmin).
      exists [], mid, post. split.
      * split; [|done]. cbn [app]. rewrite <- Hd. by apply is_prefix_split.
      * intros pre' mid' ds' post' Hfig.
        destruct pre' as [|a pre']; [right|left; cbn; lia].
        split; [done|].
        destruct (figure_at_start _ _ _ _ _ Hfig) as [_ Hd'].
        destruct Hfig as (_ & Hmid' & Hall' & Hne').
        eapply Hmin; eauto.
    + intros Hs. destruct (IH Hs) as (pre & mid & post & Hfig & Hmin).
      exists (c :: pre), mid, post. split; [by apply (proj2 (figure_cons _ _ _ _ _ _ _))|].
      intros pre' mid' ds' post' Hfig'.
      destruct pre' as [|a pre'].
      * exfalso. destruct (figure_at_start _ _ _ _ _ Hfig') as [Hp Hd'].
        rewrite Hp in E. destruct Hfig' as (_ & Hmid' & Hall' & Hne').
        eapply first_figure_None; eauto.
      * pose proof (figure_head _ _ _ _ _ _ _ _ Hfig') as ->.
        apply (proj1 (figure_cons _ _ _ _ _ _ _)) in Hfig'.
        destruct (Hmin _ _ _ _ Hfig') as [?|[? ?]].
        -- left. cbn. lia.
        -- right. cbn. split; [lia|done].
Qed.

(** Two leftmost figures carry the same digits. *)
Lemma leftmost_figure_unique (label text : jsstring)
    (pre mid ds post pre' mid' ds' post' : jsstring) :
  leftmost_figure label text pre mid ds post ->
  leftmost_figure label text pre' mid' ds' post' ->
  ds = ds'.
Proof.
  intros [Hf Hmin] [Hf' Hmin'].
  pose proof (Hmin _ _ _ _ Hf') as H1. pose proof (Hmin' _ _ _ _ Hf) as H2.
  assert (length pre = length pre' /\ length mid = length mid') as [Hp Hm] by lia.
  destruct Hf as (Ht & _ & Hall & Hne), Hf' as (Ht' & _ & Hall' & Hne').
  rewrite Ht in Ht'.
  apply app_inj_1 in Ht' as [_ Ht']; [|done].
  apply app_inv_head in Ht'.
  apply app_inj_1 in Ht' as [_ Ht']; [|done].
  assert (digits_then_percent (ds ++ percent :: post) = Some ds) as Hd
    by (apply digits_then_percent_Some; eauto).
  assert (digits_then_percent (ds' ++ percent :: post') = Some ds') as Hd'
    by (apply digits_then_percent_Some; eauto).
  congruence.
Qed.

(** The scan returns the digits of the leftmost figure. *)
Lemma label_search_leftmost (label text pre mid ds post : jsstring) :
  leftmost_figure label text pre mid ds post -> label_search label text = Some ds.
Proof.
  intros Hl. destruct (label_search label text) as [ds0|] eqn:E.
  - apply label_search_Some in E as (pre0 & mid0 & post0 & Hl0).
    f_equal. eapply leftmost_figure_unique; eauto.
  - exfalso. destruct Hl as [Hf _]. exact (label_search_None _ _ E _ _ _ _ Hf).
Qed.

(** ** Numbers read from digit runs *)

Lemma round53_nonneg (m : Z) : (0 <= m)%Z -> (0 <= round53 m)%Z.
Proof.
  intros Hm. unfold round53.
  destruct (Z.log2 m - 52 <=? 0)%Z; [done|].
  apply Z.shiftl_nonneg.
  assert (0 <= Z.shiftr m (Z.log2 m - 52))%Z by (by apply Z.shiftr_nonneg).
  repeat case_match; lia.
Qed.

Lemma round53_small (m : Z) : (0 <= m < 2 ^ 53)%Z -> round53 m = m.
Proof.
  intros [H0 H1]. unfold round53.
  destruct (Z.eq_dec m 0) as [->|Hne]; [done|].
  assert (Z.log2 m < 53)%Z by (apply Z.log2_lt_pow2; lia).
  destruct (Z.log2 m - 52 <=? 0)%Z eqn:E; [done|].
  apply Z.leb_gt in E. lia.
Qed.

(** Below 2^53 the conversion is exact. *)
Lemma of_Z_exact (z : Z) : (0 <= z < 2 ^ 53)%Z -> of_Z z = Fin z.
Proof.
  intros Hz. unfold of_Z. rewrite Z.abs_eq by lia. rewrite round53_small by done.
  destruct (2 ^ 1024 <=? z)%Z eqn:E.
  - apply Z.leb_le in E.
    assert (2 ^ 53 < 2 ^ 1024)%Z by (apply Z.pow_lt_mono_r; lia). lia.
  - f_equal. destruct (Z.eq_dec z 0) as [->|]; [done|].
    rewrite Z.sgn_pos by lia. lia.
Qed.

Lemma of_Z_nonneg (z : Z) : (0 <= z)%Z -> nonneg_number (of_Z z).
Proof.
  intros Hz. unfold of_Z. rewrite Z.abs_eq by done.
  pose proof (round53_nonneg z Hz).
  destruct (2 ^ 1024 <=? round53 z)%Z.
  - destruct (z <? 0)%Z eqn:E; [|done]. apply Z.ltb_lt in E. lia.
  - cbn. apply Z.mul_nonneg_nonneg; [|done].
    destruct (Z.eq_dec z 0) as [->|]; [done|]. rewrite Z.sgn_pos by lia. lia.
Qed.

Lemma number_add_nonneg (a b : number) :
  nonneg_number a -> nonneg_number b -> nonneg_number (number_add a b).
Proof.
  destruct a, b; cbn; try done.
  intros. apply of_Z_nonneg. lia.
Qed.

Lemma digit_value_decimal (c : char16) :
  is_digit c = true -> digit_value 10 c = Some (Z.of_N c - 48)%Z.
Proof.
  intros H. unfold digit_value. rewrite H.
  apply is_digit_bounds in H.
  destruct (Z.of_N c - 48 <? 10)%Z eqn:E; [done|]. apply Z.ltb_ge in E. lia.
Qed.

Lemma radix_value_nonneg (radix : Z) (ds : jsstring) :
  (0 <= radix)%Z -> (0 <= radix_value radix ds)%Z.
Proof.
  intros Hr. unfold radix_value.
  assert (forall acc, (0 <= acc)%Z ->
    (0 <= fold_left (fun acc c => acc * radix + default 0 (digit_value radix c)) ds acc)%Z)
    as H; [|by apply H].
  induction ds as [|c ds IH]; intros acc Hacc; cbn [fold_left]; [done|].
  apply IH.
  assert (0 <= default 0 (digit_value radix c))%Z.
  { unfold digit_value. destruct (is_digit c) eqn:E1.
    - apply is_digit_bounds in E1. destruct (_ <? radix)%Z; cbn; lia.
    - destruct ((97 <=? c) && (c <=? 122))%N eqn:E2.
      + apply andb_prop in E2 as [?%N.leb_le ?%N.leb_le].
        destruct (_ <? radix)%Z; cbn; lia.
      + destruct ((65 <=? c) && (c <=? 90))%N eqn:E3; [|cbn; lia].
        apply andb_prop in E3 as [?%N.leb_le ?%N.leb_le].
        destruct (_ <? radix)%Z; cbn; lia. }
  nia.
Qed.

Lemma decimal_nonneg (ds : jsstring) : (0 <= decimal ds)%Z.
Proof. by apply radix_value_nonneg. Qed.

Lemma digit_not_space (c : char16) : is_digit c = true -> is_white_space c = false.
Proof.
  intros H%is_digit_bounds. unfold is_white_space, is_line_terminator.
  repeat match goal with
         | |- context [(c =? ?k)%N] =>
             replace (c =? k)%N with false by (symmetry; apply N.eqb_neq; lia)
         end.
  replace (8192 <=? c)%N with false by (symmetry; apply N.leb_gt; lia).
  done.
Qed.

Lemma take_while_id {A} (p : A -> bool) (s : list A) :
  Forall (fun c => p c = true) s -> take_while p s = s.
Proof.
  induction 1 as [|c s Hc _ IH]; cbn; [done|]. by rewrite Hc, IH.
Qed.

(** On a run of decimal digits [parseInt] converts the whole run. *)
Lemma parseInt_digits (ds : jsstring) :
  all_digits ds -> ds <> [] -> parseInt ds = of_Z (decimal ds).
Proof.
  intros Hall Hne. destruct ds as [|c t]; [done|].
  pose proof Hall as [Hc Ht]%Forall_cons.
  unfold parseInt. cbn [drop_while]. rewrite (digit_not_space c Hc).
  pose proof Hc as Hb%is_digit_bounds.
  replace (c =? 45)%N with false by (symmetry; apply N.eqb_neq; lia).
  replace (c =? 43)%N with false by (symmetry; apply N.eqb_neq; lia).
  assert ((match t with
           | [] => (10%Z, c :: t)
           | x :: t0 =>
               if ((c =? 48) && ((x =? 120) || (x =? 88)))%N
               then (16%Z, t0) else (10%Z, c :: t)
           end) = (10%Z, c :: t)) as Hradix.
  { destruct t as [|x t0]; [done|].
    apply Forall_cons in Ht as [Hx%is_digit_bounds _].
    replace (x =? 120)%N with false by (symmetry; apply N.eqb_neq; lia).
    replace (x =? 88)%N with false by (symmetry; apply N.eqb_neq; lia).
    by rewrite andb_false_r. }
  rewrite Hradix.
  rewrite take_while_id.
  - by rewrite Z.mul_1_l.
  - eapply Forall_impl; [exact Hall|]. intros d Hd. cbn in Hd.
    unfold is_radix_digit. by rewrite digit_value_decimal.
Qed.

(** The value [extractPercentage] returns for a label pattern. *)
Lemma extractPercentage_label (label text : jsstring) :
  extractPercentage text (label_pattern label) =
  match label_search label text with
  | Some ds => of_Z (decimal ds)
  | None => Fin 0
  end.
Proof.
  unfold extractPercentage. rewrite string_match_label.
  destruct (label_search label text) as [ds|] eqn:E; cbn; [|done].
  apply label_search_Some in E as (pre & mid & post & (_ & _ & Hall & Hne) & _).
  by apply parseInt_digits.
Qed.

Lemma extractPercentage_nonneg (label text : jsstring) :
  nonneg_number (extractPercentage text (label_pattern label)).
Proof.
  rewrite extractPercentage_label. destruct (label_search label text); [|done].
  apply of_Z_nonneg, decimal_nonneg.
Qed.

(** No figure for the label: the value is 0. *)
Lemma extractPercentage_absent (label text : jsstring) :
  (forall pre mid ds post, ~ figure label text pre mid ds post) ->
  extractPercentage text (label_pattern label) = Fin 0.
Proof.
  intros Hno. rewrite extractPercentage_label.
  destruct (label_search label text) as [ds|] eqn:E; [|done].
  apply label_search_Some in E as (pre & mid & post & Hf & _).
  by apply Hno in Hf.
Qed.

(** Otherwise it is the number written by the leftmost figure. *)
Lemma extractPercentage_leftmost (label text pre mid ds post : jsstring) :
  leftmost_figure label text pre mid ds post ->
  extractPercentage text (label_pattern label) = of_Z (decimal ds).
Proof.
  intros Hl. rewrite extractPercentage_label.
  by rewrite (label_search_leftmost _ _ _ _ _ _ Hl).
Qed.

(** The search either fails or finds the leftmost figure. *)
Lemma extractPercentage_cases (label text : jsstring) :
  (extractPercentage text (label_pattern label) = Fin 0
   /\ forall pre mid ds post, ~ figure label text pre mid ds post)
  \/ (exists pre mid ds post,
        leftmost_figure label text pre mid ds post
        /\ extractPercentage text (label_pattern label) = of_Z (decimal ds)).
Proof.
  rewrite extractPercentage_label.
  destruct (label_search label text) as [ds|] eqn:E.
  - right. apply label_search_Some in E as (pre & mid & post & Hl). by exists pre, mid, ds, post.
  - left. split; [done|]. by apply label_search_None.
Qed.

(** ** The fields of the result *)

Ltac abstract_searches :=
  repeat match goal with
         | |- context [extractPercentage ?t ?p] =>
             let v := fresh "v" in
             generalize (extractPercentage t p); intro v
         end.

(** Each searched key holds the outcome of its pattern search. *)
Lemma parse_searched (cat : category) (key : string) (label text : jsstring) :
  (cat, key, label) ∈ searched_keys ->
  category_map cat (parseDemographicResponse text) !! key
  = Some (extractPercentage text (label_pattern label)).
Proof.
  intros H. unfold searched_keys in H.
  repeat (apply elem_of_cons in H as [[= -> -> ->]|H]);
    try (by apply elem_of_nil in H);
    unfold parseDemographicResponse, category_map;
    cbn [age gender pregnancyStatus geography];
    abstract_searches; vm_compute; reflexivity.
Qed.

Lemma parse_constant (cat : category) (key : string) (text : jsstring) :
  (cat, key) ∈ constant_keys ->
  category_map cat (parseDemographicResponse text) !! key = Some (Fin 0).
Proof.
  intros H. unfold constant_keys in H.
  repeat (apply elem_of_cons in H as [[= -> ->]|H]);
    try (by apply elem_of_nil in H);
    unfold parseDemographicResponse, category_map;
    cbn [age gender pregnancyStatus geography];
    abstract_searches; vm_compute; reflexivity.
Qed.

Lemma parse_other (text : jsstring) :
  geography (parseDemographicResponse text) !! "Other"
  = Some (number_add (extractPercentage text (label_pattern (js "South America")))
                     (extractPercentage text (label_pattern (js "Oceania")))).
Proof.
  unfold parseDemographicResponse. cbn [geography].
  abstract_searches.
  match goal with |- context [number_add ?a ?b] => generalize (number_add a b) end.
  intros n. vm_compute. reflexivity.
Qed.

(** ** The extractor on fixed texts *)

(** Closed equalities are settled by evaluating their decision procedure. *)
Ltac decide_closed :=
  repeat match goal with |- _ /\ _ => split end;
  (apply (bool_decide_unpack _); vm_compute; exact I).

(** C1. Applied to the canned analysis text of the mock path,
    [parseDemographicResponse] returns age 0/15/60/45/8/0, gender 42/48/10,
    pregnancy status 0/0/100 and geography 52/28/12/0/8/0, under the
    enumerated keys. *)
Theorem mock_text_breakdown :
  age (parseDemographicResponse mockResponse)
    = list_to_map [("0-18", Fin 0); ("18-40", Fin 15); ("40-65", Fin 60);
                   ("65-75", Fin 45); (">75", Fin 8); ("not_specified", Fin 0)]
  /\ gender (parseDemographicResponse mockResponse)
    = list_to_map [("male", Fin 42); ("female", Fin 48); ("not_specified", Fin 10)]
  /\ pregnancyStatus (parseDemographicResponse mockResponse)
    = list_to_map [("pregnant", Fin 0); ("not_pregnant", Fin 0); ("not_specified", Fin 100)]
  /\ geography (parseDemographicResponse mockResponse)
    = list_to_map [("North America", Fin 52); ("Europe", Fin 28); ("Asia", Fin 12);
                   ("Africa", Fin 0); ("Other", Fin 8); ("not_specified", Fin 0)].
Proof. decide_closed. Qed.

(** C3. On the empty text every percentage is 0 and the findings are the
    five canonical statements. *)
Theorem empty_text_all_zero :
  age (parseDemographicResponse [])
    = list_to_map [("0-18", Fin 0); ("18-40", Fin 0); ("40-65", Fin 0);
                   ("65-75", Fin 0); (">75", Fin 0); ("not_specified", Fin 0)]
  /\ gender (parseDemographicResponse [])
    = list_to_map [("male", Fin 0); ("female", Fin 0); ("not_specified", Fin 0)]
  /\ pregnancyStatus (parseDemographicResponse [])
    = list_to_map [("pregnant", Fin 0); ("not_pregnant", Fin 0); ("not_specified", Fin 0)]
  /\ geography (parseDemographicResponse [])
    = list_to_map [("North America", Fin 0); ("Europe", Fin 0); ("Asia", Fin 0);
                   ("Africa", Fin 0); ("Other", Fin 0); ("not_specified", Fin 0)]
  /\ criticalFindings (parseDemographicResponse [])
    = [js "Complete exclusion of pediatric populations";
       js "Systematic exclusion of pregnant individuals";
       js "Severe underrepresentation of very elderly (>75)";
       js "Complete absence of African populations";
       js "Geographic bias toward Western/developed nations"]
  /\ length (criticalFindings (parseDemographicResponse [])) = 5%nat.
Proof. decide_closed. Qed.

(** ** The key sets *)

Lemma parse_dom (cat : category) (text : jsstring) :
  dom (category_map cat (parseDemographicResponse text)) = category_keys cat.
Proof.
  destruct cat; unfold parseDemographicResponse, category_map;
    cbn [age gender pregnancyStatus geography];
    rewrite dom_list_to_map_L; cbn [fmap list_fmap fst];
    unfold category_keys, age_keys, gender_keys, pregnancy_keys, geography_keys;
    set_solver.
Qed.

Ltac find_key :=
  unfold searched_keys, constant_keys;
  solve [ repeat first [ apply list_elem_of_here | apply list_elem_of_further ] ].

Lemma parse_key_value (cat : category) (key : string) (text : jsstring) :
  key ∈ category_keys cat ->
  exists v, category_map cat (parseDemographicResponse text) !! key = Some v
            /\ nonneg_number v.
Proof.
  intros Hk.
  destruct cat; unfold category_keys, age_keys, gender_keys, pregnancy_keys,
    geography_keys in Hk; set_unfold in Hk;
    repeat (destruct Hk as [Hk|Hk]); subst key;
    first
      [ eexists; split;
          [ apply parse_searched; find_key | apply extractPercentage_nonneg ]
      | eexists; split; [ apply parse_constant; find_key | done ]
      | eexists; split;
          [ apply parse_other
          | apply number_add_nonneg; apply extractPercentage_nonneg ] ].
Qed.

(** C2. For every text the key set of each of the four mappings is its
    enumeration, and every key holds a number (never NaN). *)
Theorem key_sets_fixed (text : jsstring) :
  dom (age (parseDemographicResponse text)) = age_keys
  /\ dom (gender (parseDemographicResponse text)) = gender_keys
  /\ dom (pregnancyStatus (parseDemographicResponse text)) = pregnancy_keys
  /\ dom (geography (parseDemographicResponse text)) = geography_keys
  /\ forall cat, map_Forall (fun _ v => v <> NaN)
                   (category_map cat (parseDemographicResponse text)).
Proof.
  split; [exact (parse_dom Age text)|].
  split; [exact (parse_dom Gender text)|].
  split; [exact (parse_dom PregnancyStatus text)|].
  split; [exact (parse_dom Geography text)|].
  intros cat key v Hv.
  assert (key ∈ category_keys cat) as Hk.
  { rewrite <- (parse_dom cat text). by apply elem_of_dom_2 in Hv. }
  destruct (parse_key_value cat key text Hk) as (v' & Hv' & Hnn).
  rewrite Hv in Hv'. injection Hv' as <-. by destruct v.
Qed.

(** ** The model client *)

Ltac run_io :=
  unfold callLLM, callLive, catchLive, callMock, try_catch, await_invoke, console, sleep, emit;
  cbn -[mockLLMResponse js pretty build_messages].

(** Without a client the mock path runs: two log lines, the timer, the
    canned response. *)
Lemma callLLM_mock (st : module_state) (prompt : jsstring) (system : option jsstring) :
  llm st = None ->
  callLLM st prompt system =
  ([Console ConsoleLog
      [ArgString (js "[LLM] Using mock LLM response (set ANTHROPIC_API_KEY for real LLM)")];
    Console ConsoleLog [ArgString (js "[LLM] Prompt length: "); length_arg prompt;
                        ArgString (js " characters")];
    SetTimeout 500],
   Returned mockLLMResponse).
Proof. intros H. run_io. rewrite H. reflexivity. Qed.

(** A rejected call is caught, logged, and followed by the mock path. *)
Lemma callLLM_rejected (st : module_state) (client : ChatAnthropic)
    (prompt : jsstring) (system : option jsstring) (e : thrown) :
  llm st = Some client ->
  invoke client (build_messages prompt system) = Rejected e ->
  callLLM st prompt system =
  ([Console ConsoleLog [ArgString (js "[LLM] Calling Anthropic Claude (");
                        ArgString (modelName st); ArgString (js ")...")];
    Console ConsoleLog [ArgString (js "[LLM] Prompt length: "); length_arg prompt;
                        ArgString (js " characters")];
    InvokeCall (build_messages prompt system);
    Console ConsoleError
      [ArgString (js "[LLM] Error calling Anthropic API:");
       match e with
       | ErrorObject message => ArgString message
       | ThrownValue _ => ArgThrown e
       end];
    Console ConsoleWarn [ArgString (js "[LLM] Falling back to mock response")];
    Console ConsoleLog
      [ArgString (js "[LLM] Using mock LLM response (set ANTHROPIC_API_KEY for real LLM)")];
    Console ConsoleLog [ArgString (js "[LLM] Prompt length: "); length_arg prompt;
                        ArgString (js " characters")];
    SetTimeout 500],
   Returned mockLLMResponse).
Proof.
  intros Hl Hi. run_io. rewrite Hl. cbn -[mockLLMResponse js pretty build_messages].
  rewrite Hi. reflexivity.
Qed.

(** A fulfilled call returns the reply; no timer is started. *)
Lemma callLLM_fulfilled (st : module_state) (client : ChatAnthropic)
    (prompt : jsstring) (system : option jsstring) (r : AIMessage) :
  llm st = Some client ->
  invoke client (build_messages prompt system) = Fulfilled r ->
  let t := fst (callLLM st prompt system) in
  network_calls t = [build_messages prompt system]
  /\ delays t = [] /\ suspensions t = 1%nat
  /\ snd (callLLM st prompt system) =
     Returned {| content := match msg_content r with
                            | ContentText s => s
                            | ContentParts json => json
                            end;
                 model := Some (modelName st);
                 tokensUsed := match usage_metadata_total_tokens r with
                               | Some n => Some n
                               | None => response_metadata_usage_total_tokens r
                               end |}.
Proof.
  intros Hl Hi. run_io. rewrite Hl. cbn -[mockLLMResponse js pretty build_messages].
  rewrite Hi. cbn -[mockLLMResponse js pretty build_messages].
  destruct (usage_metadata_total_tokens r) as [n|];
    [|destruct (response_metadata_usage_total_tokens r) as [n|]];
    try destruct (number_truthy n); done.
Qed.

(** A call that never settles leaves [callLLM] suspended. *)
Lemma callLLM_pending (st : module_state) (client : ChatAnthropic)
    (prompt : jsstring) (system : option jsstring) :
  llm st = Some client ->
  invoke client (build_messages prompt system) = Pending ->
  snd (callLLM st prompt system) = Suspended
  /\ delays (fst (callLLM st prompt system)) = [].
Proof.
  intros Hl Hi. run_io. rewrite Hl. cbn -[mockLLMResponse js pretty build_messages].
  rewrite Hi. done.
Qed.

(** Every timer [callLLM] starts runs for 500 ms. *)
Lemma callLLM_delays (st : module_state) (prompt : jsstring) (system : option jsstring) :
  Forall (fun ms => ms = 500%Z) (delays (fst (callLLM st prompt system))).
Proof.
  destruct (llm st) as [client|] eqn:Hl.
  - destruct (invoke client (build_messages prompt system)) as [r|e|] eqn:Hi.
    + destruct (callLLM_fulfilled st client prompt system r Hl Hi) as (_ & -> & _).
      constructor.
    + rewrite (callLLM_rejected st client prompt system e Hl Hi). cbn. by repeat constructor.
    + destruct (callLLM_pending st client prompt system Hl Hi) as (_ & ->). constructor.
  - rewrite (callLLM_mock st prompt system Hl). cbn. by repeat constructor.
Qed.

(** The module loaded without a credential has no client, and loading it
    constructs nothing. *)
Lemma init_without_key (env : gmap string jsstring)
    (new_client : ChatAnthropicFields -> thrown + ChatAnthropic) :
  string_truthy (env !! "ANTHROPIC_API_KEY") = false ->
  llm (snd (init_module env new_client)) = None
  /\ useMockLLM (snd (init_module env new_client)) = true
  /\ Forall (fun e => match e with Console _ _ => True | _ => False end)
            (fst (init_module env new_client)).
Proof.
  intros H. unfold init_module. rewrite H. cbn. repeat split. by repeat constructor.
Qed.

(** C4. When the live call throws, whatever the error, [callLLM] catches it
    and returns the mock response: the canned text, model [mock-llm-v1],
    450 tokens. *)
Theorem live_failure_falls_back (st : module_state) (client : ChatAnthropic)
    (prompt : jsstring) (system : option jsstring) (e : thrown) :
  llm st = Some client ->
  invoke client (build_messages prompt system) = Rejected e ->
  snd (callLLM st prompt system) =
  Returned {| content := mockResponse;
              model := Some (js "mock-llm-v1");
              tokensUsed := Some (Fin 450) |}.
Proof.
  intros Hl Hi. by rewrite (callLLM_rejected st client prompt system e Hl Hi).
Qed.

Lemma live_failure_falls_back_witness :
  llm (live_state (failing_client (ErrorObject (js "overloaded")))) =
    Some (failing_client (ErrorObject (js "overloaded")))
  /\ invoke (failing_client (ErrorObject (js "overloaded")))
            (build_messages (js "Summarise") (Some (js "You are an epidemiologist")))
      = Rejected (ErrorObject (js "overloaded"))
  /\ snd (callLLM (live_state (failing_client (ErrorObject (js "overloaded"))))
                  (js "Summarise") (Some (js "You are an epidemiologist")))
      = Returned {| content := mockResponse;
                    model := Some (js "mock-llm-v1");
                    tokensUsed := Some (Fin 450) |}.
Proof.
  split; [reflexivity|]. split; [reflexivity|].
  apply (live_failure_falls_back
           (live_state (failing_client (ErrorObject (js "overloaded"))))
           (failing_client (ErrorObject (js "overloaded")))
           (js "Summarise") (Some (js "You are an epidemiologist"))
           (ErrorObject (js "overloaded"))); reflexivity.
Defined.

(** C5. With no credential configured the module has no client; every call
    of [callLLM] then makes no network call and returns the same response:
    the canned text, model [mock-llm-v1], 450 tokens. *)
Theorem no_credential_mock (env : gmap string jsstring)
    (new_client : ChatAnthropicFields -> thrown + ChatAnthropic)
    (prompt : jsstring) (system : option jsstring) :
  string_truthy (env !! "ANTHROPIC_API_KEY") = false ->
  network_calls (fst (init_module env new_client)) = []
  /\ network_calls (fst (callLLM (snd (init_module env new_client)) prompt system)) = []
  /\ snd (callLLM (snd (init_module env new_client)) prompt system) =
     Returned {| content := mockResponse;
                 model := Some (js "mock-llm-v1");
                 tokensUsed := Some (Fin 450) |}.
Proof.
  intros H. destruct (init_without_key env new_client H) as (Hl & _ & Hev).
  rewrite (callLLM_mock _ prompt system Hl). split; [|done].
  induction Hev as [|ev t Hc _ IH]; [done|]. by destruct ev.
Qed.

Lemma no_credential_mock_witness :
  string_truthy ((∅ : gmap string jsstring) !! "ANTHROPIC_API_KEY") = false
  /\ network_calls
       (fst (callLLM (snd (init_module ∅ (fun _ => inr (answering_client sample_reply))))
                     (js "Summarise") None)) = []
  /\ snd (callLLM (snd (init_module ∅ (fun _ => inr (answering_client sample_reply))))
                  (js "Summarise") None) =
     Returned {| content := mockResponse;
                 model := Some (js "mock-llm-v1");
                 tokensUsed := Some (Fin 450) |}.
Proof.
  split; [reflexivity|].
  apply (no_credential_mock ∅ (fun _ => inr (answering_client sample_reply))
           (js "Summarise") None).
  reflexivity.
Defined.

(** ** Recognising the leftmost figure of a given text *)

(** Directly after the label, with no digit in between. *)
Lemma leftmost_at_start (label mid ds post : jsstring) :
  Forall (fun c => is_digit c = false) mid ->
  one_line mid -> all_digits ds -> ds <> [] ->
  leftmost_figure label (label ++ mid ++ ds ++ percent :: post) [] mid ds post.
Proof.
  intros Hnd Hmid Hall Hne. split; [done|].
  intros pre' mid' ds' post' (Ht & _ & Hall' & Hne').
  destruct pre' as [|a pre']; [right|left; cbn; lia].
  split; [done|]. cbn [app] in Ht. apply app_inv_head in Ht.
  destruct (decide (length mid <= length mid')%nat) as [|Hlt]; [done|exfalso].
  assert ((mid ++ ds ++ percent :: post) !! length mid'
          = (mid' ++ ds' ++ percent :: post') !! length mid') as Hlk by (by rewrite Ht).
  rewrite lookup_app_l in Hlk by lia.
  rewrite lookup_app_r, Nat.sub_diag in Hlk by lia.
  destruct ds' as [|d ds']; [done|]. cbn in Hlk.
  apply Forall_cons in Hall' as [Hd _].
  apply list_elem_of_lookup_2 in Hlk.
  rewrite Forall_forall in Hnd. specialize (Hnd _ Hlk). congruence.
Qed.

(** One character further, when the label does not start the text. *)
Lemma leftmost_figure_skip (c : char16) (label text pre mid ds post : jsstring) :
  is_prefix label (c :: text) = false ->
  leftmost_figure label text pre mid ds post ->
  leftmost_figure label (c :: text) (c :: pre) mid ds post.
Proof.
  intros Hp [Hf Hmin]. split; [by apply (proj2 (figure_cons _ _ _ _ _ _ _))|].
  intros pre' mid' ds' post' Hf'.
  destruct pre' as [|a pre'].
  - destruct (figure_at_start _ _ _ _ _ Hf') as [Hp' _]. congruence.
  - pose proof (figure_head _ _ _ _ _ _ _ _ Hf') as ->.
    apply (proj1 (figure_cons _ _ _ _ _ _ _)) in Hf'.
    destruct (Hmin _ _ _ _ Hf') as [?|[? ?]]; cbn; [left|right]; lia.
Qed.

(** A text whose only line terminators are newlines and in which the scan
    finds nothing: every percent figure after the label is behind a
    newline. *)
Lemma newline_separated_check (label text : jsstring) :
  label_search label text = None ->
  Forall (fun c => is_line_terminator c = true -> c = 10%N) text ->
  forall pre mid ds post,
    text = pre ++ label ++ mid ++ ds ++ percent :: post ->
    all_digits ds -> ds <> [] -> 10%N ∈ mid.
Proof.
  intros Hs Hlt pre mid ds post Ht Hall Hne.
  destruct (decide (10%N ∈ mid)) as [|Hnot]; [done|exfalso].
  apply (label_search_None _ _ Hs pre mid ds post).
  split; [done|]. split; [|done].
  apply Forall_forall. intros c Hc.
  destruct (is_line_terminator c) eqn:E; [|done].
  rewrite Forall_forall in Hlt.
  assert (c ∈ text) as Hin by (rewrite Ht; set_solver).
  by rewrite <- (Hlt c Hin E) in Hnot.
Qed.

Ltac eval_js :=
  repeat match goal with
         | |- context [js ?s] =>
             let v := eval vm_compute in (js s) in change (js s) with v
         end.

Ltac leftmost_here :=
  eval_js; cbn [app];
  repeat (apply leftmost_figure_skip; [reflexivity|]);
  match goal with
  | |- leftmost_figure ?l _ [] ?m ?d ?p =>
      apply (leftmost_at_start l m d p); [by repeat constructor ..|done]
  end.

Example leftmost_second_line :
  leftmost_figure (js "Oceania") (js "South America: 3%" ++ 10%N :: js "Oceania: 5%")
    (js "South America: 3%" ++ [10%N]) (js ": ") (js "5") [].
Proof. leftmost_here. Qed.

(** ** What each key is read from *)

Example label_case_sensitive :
  gender (parseDemographicResponse (js "male: 42%, FEMALE: 48%")) !! "male" = Some (Fin 0)
  /\ gender (parseDemographicResponse (js "male: 42%, FEMALE: 48%")) !! "female" = Some (Fin 0).
Proof. decide_closed. Qed.

(** Against C6 as stated.  A text that gives a figure under the key's own
    name leaves [not_pregnant] at 0, although a search for that name finds
    50; and whatever label one proposes, [not_pregnant] is not the outcome of
    a search for it. *)
Lemma not_pregnant_not_searched :
  pregnancyStatus (parseDemographicResponse (js "not_pregnant: 50%")) !! "not_pregnant"
    = Some (Fin 0)
  /\ extractPercentage (js "not_pregnant: 50%") (label_pattern (js "not_pregnant")) = Fin 50
  /\ ~ exists label : jsstring, forall text : jsstring,
        pregnancyStatus (parseDemographicResponse text) !! "not_pregnant"
        = Some (extractPercentage text (label_pattern label)).
Proof.
  split; [decide_closed|]. split; [decide_closed|].
  intros [label H]. specialize (H (label ++ [] ++ js "7" ++ percent :: [])).
  rewrite (parse_constant PregnancyStatus "not_pregnant") in H by find_key.
  rewrite (extractPercentage_leftmost label _ [] [] (js "7") []) in H.
  - vm_compute in H. discriminate.
  - apply leftmost_at_start; [constructor|constructor|by repeat constructor|done].
Qed.

(** C6, as the code has it.  Each of the fourteen searched keys holds the
    outcome of a search for its own prose label: 0 when the text has no
    figure for the label (the label, then on the same line a digit run closed
    by a percent sign), and otherwise the number written by the leftmost
    figure.  [Other] adds two such searches.  The three remaining keys are
    the constant 0. *)
Theorem values_from_label_search (text : jsstring) :
  (forall cat key label, (cat, key, label) ∈ searched_keys ->
     exists v, category_map cat (parseDemographicResponse text) !! key = Some v
       /\ ((v = Fin 0 /\ forall pre mid ds post, ~ figure label text pre mid ds post)
           \/ (exists pre mid ds post,
                 leftmost_figure label text pre mid ds post /\ v = of_Z (decimal ds))))
  /\ (forall cat key, (cat, key) ∈ constant_keys ->
        category_map cat (parseDemographicResponse text) !! key = Some (Fin 0))
  /\ geography (parseDemographicResponse text) !! "Other"
     = Some (number_add (extractPercentage text (label_pattern (js "South America")))
                        (extractPercentage text (label_pattern (js "Oceania")))).
Proof.
  split; [|split].
  - intros cat key label Hin. eexists. split; [by apply parse_searched|].
    destruct (extractPercentage_cases label text) as [[H0 Hno]|(pre & mid & ds & post & Hl & Hv)].
    + left. by split.
    + right. by exists pre, mid, ds, post.
  - intros cat key Hin. by apply parse_constant.
  - apply parse_other.
Qed.

Lemma values_from_label_search_witness :
  (Gender, "male", js "Male") ∈ searched_keys
  /\ exists v, gender (parseDemographicResponse (js "Male: 42%")) !! "male" = Some v
       /\ ((v = Fin 0
            /\ forall pre mid ds post, ~ figure (js "Male") (js "Male: 42%") pre mid ds post)
           \/ (exists pre mid ds post,
                 leftmost_figure (js "Male") (js "Male: 42%") pre mid ds post
                 /\ v = of_Z (decimal ds))).
Proof.
  assert ((Gender, "male", js "Male") ∈ searched_keys) as Hin by find_key.
  split; [exact Hin|].
  exact (proj1 (values_from_label_search (js "Male: 42%")) Gender "male" (js "Male") Hin).
Defined.

(** ** Ranges and signs *)




(** ** The [Other] region *)

Example other_label_ignored :
  geography (parseDemographicResponse (js "Other: 50%")) !! "Other" = Some (Fin 0).
Proof. decide_closed. Qed.

(** C9. [Other] is the sum of the search for [South America] and the search
    for [Oceania], each 0 when the text has no figure for it; nothing else in
    the text, a line labelled [Other] included, contributes.  When both
    figures are present and their sum is below 2^53 the entry is that
    integer sum. *)
Theorem other_is_sum (text : jsstring) :
  geography (parseDemographicResponse text) !! "Other"
  = Some (number_add (extractPercentage text (label_pattern (js "South America")))
                     (extractPercentage text (label_pattern (js "Oceania"))))
  /\ ((forall pre mid ds post, ~ figure (js "South America") text pre mid ds post) ->
      (forall pre mid ds post, ~ figure (js "Oceania") text pre mid ds post) ->
      geography (parseDemographicResponse text) !! "Other" = Some (Fin 0))
  /\ (forall pre1 mid1 ds1 post1 pre2 mid2 ds2 post2,
        leftmost_figure (js "South America") text pre1 mid1 ds1 post1 ->
        leftmost_figure (js "Oceania") text pre2 mid2 ds2 post2 ->
        (decimal ds1 + decimal ds2 < 2 ^ 53)%Z ->
        geography (parseDemographicResponse text) !! "Other"
        = Some (Fin (decimal ds1 + decimal ds2)))
  /\ ((forall pre mid ds post, ~ figure (js "South America") text pre mid ds post) ->
      forall pre2 mid2 ds2 post2,
        leftmost_figure (js "Oceania") text pre2 mid2 ds2 post2 ->
        (decimal ds2 < 2 ^ 53)%Z ->
        geography (parseDemographicResponse text) !! "Other" = Some (Fin (decimal ds2)))
  /\ ((forall pre mid ds post, ~ figure (js "Oceania") text pre mid ds post) ->
      forall pre1 mid1 ds1 post1,
        leftmost_figure (js "South America") text pre1 mid1 ds1 post1 ->
        (decimal ds1 < 2 ^ 53)%Z ->
        geography (parseDemographicResponse text) !! "Other" = Some (Fin (decimal ds1))).
Proof.
  rewrite parse_other. split; [done|]. split; [|split; [|split]].
  - intros H1 H2.
    by rewrite (extractPercentage_absent _ _ H1), (extractPercentage_absent _ _ H2).
  - intros pre1 mid1 ds1 post1 pre2 mid2 ds2 post2 H1 H2 Hsum.
    rewrite (extractPercentage_leftmost _ _ _ _ _ _ H1),
            (extractPercentage_leftmost _ _ _ _ _ _ H2).
    pose proof (decimal_nonneg ds1). pose proof (decimal_nonneg ds2).
    rewrite (of_Z_exact (decimal ds1)), (of_Z_exact (decimal ds2)) by lia.
    cbn [number_add]. f_equal. apply of_Z_exact. lia.
  - intros H1 pre2 mid2 ds2 post2 H2 Hsmall.
    rewrite (extractPercentage_absent _ _ H1), (extractPercentage_leftmost _ _ _ _ _ _ H2).
    pose proof (decimal_nonneg ds2).
    rewrite (of_Z_exact (decimal ds2)) by lia.
    cbn [number_add]. f_equal. rewrite Z.add_0_l. apply of_Z_exact. lia.
  - intros H2 pre1 mid1 ds1 post1 H1 Hsmall.
    rewrite (extractPercentage_absent _ _ H2), (extractPercentage_leftmost _ _ _ _ _ _ H1).
    pose proof (decimal_nonneg ds1).
    rewrite (of_Z_exact (decimal ds1)) by lia.
    cbn [number_add]. f_equal. rewrite Z.add_0_r. apply of_Z_exact. lia.
Qed.

Lemma other_is_sum_witness :
  leftmost_figure (js "South America")
    (js "South America: 3%" ++ 10%N :: js "Oceania: 5%" ++ 10%N :: js "Other: 50%")
    [] (js ": ") (js "3") (10%N :: js "Oceania: 5%" ++ 10%N :: js "Other: 50%")
  /\ leftmost_figure (js "Oceania")
    (js "South America: 3%" ++ 10%N :: js "Oceania: 5%" ++ 10%N :: js "Other: 50%")
    (js "South America: 3%" ++ [10%N]) (js ": ") (js "5") (10%N :: js "Other: 50%")
  /\ (decimal (js "3") + decimal (js "5") < 2 ^ 53)%Z
  /\ geography (parseDemographicResponse
       (js "South America: 3%" ++ 10%N :: js "Oceania: 5%" ++ 10%N :: js "Other: 50%"))
     !! "Other" = Some (Fin 8).
Proof.
  assert (leftmost_figure (js "South America")
    (js "South America: 3%" ++ 10%N :: js "Oceania: 5%" ++ 10%N :: js "Other: 50%")
    [] (js ": ") (js "3") (10%N :: js "Oceania: 5%" ++ 10%N :: js "Other: 50%"))
    as H1 by leftmost_here.
  assert (leftmost_figure (js "Oceania")
    (js "South America: 3%" ++ 10%N :: js "Oceania: 5%" ++ 10%N :: js "Other: 50%")
    (js "South America: 3%" ++ [10%N]) (js ": ") (js "5") (10%N :: js "Other: 50%"))
    as H2 by leftmost_here.
  assert (decimal (js "3") + decimal (js "5") < 2 ^ 53)%Z as Hsum by (vm_compute; reflexivity).
  split; [exact H1|]. split; [exact H2|]. split; [exact Hsum|].
  exact (proj1 (proj2 (proj2 (other_is_sum
           (js "South America: 3%" ++ 10%N :: js "Oceania: 5%" ++ 10%N :: js "Other: 50%"))))
           _ _ _ _ _ _ _ _ H1 H2 Hsum).
Defined.

(** ** Lines and the leftmost match *)

Example figure_on_next_line :
  gender (parseDemographicResponse (js "Male:" ++ 10%N :: js "42%")) !! "male" = Some (Fin 0).
Proof. decide_closed. Qed.

Example first_of_two_matches :
  gender (parseDemographicResponse (js "Male: 7%, Male: 9%")) !! "male" = Some (Fin 7).
Proof. decide_closed. Qed.

(** A label occurrence without a figure on its line is passed over. *)
Example match_after_bare_label :
  gender (parseDemographicResponse (js "Male" ++ 10%N :: js "Male: 9%")) !! "male"
  = Some (Fin 9).
Proof. decide_closed. Qed.

(** C10. For every searched key, and for the two searches behind [Other]:
    if every percent figure after an occurrence of the label is separated
    from it by a newline, the search yields 0; and when the pattern matches
    at several places, the digits of the leftmost match are returned. *)
Theorem same_line_leftmost (text : jsstring) :
  (forall cat key label, (cat, key, label) ∈ searched_keys ->
     ((forall pre mid ds post,
         text = pre ++ label ++ mid ++ ds ++ percent :: post ->
         all_digits ds -> ds <> [] -> 10%N ∈ mid) ->
      category_map cat (parseDemographicResponse text) !! key = Some (Fin 0))
     /\ (forall pre mid ds post,
           leftmost_figure label text pre mid ds post ->
           category_map cat (parseDemographicResponse text) !! key
           = Some (of_Z (decimal ds))))
  /\ (forall label,
        ((forall pre mid ds post,
            text = pre ++ label ++ mid ++ ds ++ percent :: post ->
            all_digits ds -> ds <> [] -> 10%N ∈ mid) ->
         extractPercentage text (label_pattern label) = Fin 0)
        /\ (forall pre mid ds post,
              leftmost_figure label text pre mid ds post ->
              extractPercentage text (label_pattern label) = of_Z (decimal ds))).
Proof.
  assert (forall label,
    (forall pre mid ds post,
       text = pre ++ label ++ mid ++ ds ++ percent :: post ->
       all_digits ds -> ds <> [] -> 10%N ∈ mid) ->
    extractPercentage text (label_pattern label) = Fin 0) as Hsep.
  { intros label H. apply extractPercentage_absent.
    intros pre mid ds post (Ht & Hmid & Hall & Hne).
    specialize (H pre mid ds post Ht Hall Hne).
    unfold one_line in Hmid. rewrite Forall_forall in Hmid.
    by specialize (Hmid _ H). }
  split.
  - intros cat key label Hin. rewrite (parse_searched _ _ _ _ Hin). split.
    + intros H. f_equal. by apply Hsep.
    + intros pre mid ds post Hl. f_equal. by eapply extractPercentage_leftmost.
  - intros label. split; [apply Hsep|].
    intros pre mid ds post Hl. by eapply extractPercentage_leftmost.
Qed.

Lemma same_line_leftmost_witness :
  ((Gender, "male", js "Male") ∈ searched_keys
   /\ (forall pre mid ds post,
         js "Male:" ++ 10%N :: js "42%" = pre ++ js "Male" ++ mid ++ ds ++ percent :: post ->
         all_digits ds -> ds <> [] -> 10%N ∈ mid)
   /\ gender (parseDemographicResponse (js "Male:" ++ 10%N :: js "42%")) !! "male"
      = Some (Fin 0))
  /\ (leftmost_figure (js "Male") (js "Male: 7%, Male: 9%") [] (js ": ") (js "7")
        (js ", Male: 9%")
      /\ gender (parseDemographicResponse (js "Male: 7%, Male: 9%")) !! "male"
         = Some (Fin 7)).
Proof.
  assert ((Gender, "male", js "Male") ∈ searched_keys) as Hin by find_key.
  assert (forall pre mid ds post,
            js "Male:" ++ 10%N :: js "42%" = pre ++ js "Male" ++ mid ++ ds ++ percent :: post ->
            all_digits ds -> ds <> [] -> 10%N ∈ mid) as Hsep.
  { apply newline_separated_check; [vm_compute; reflexivity|].
    eval_js. cbn [app]. repeat constructor; by intros. }
  assert (leftmost_figure (js "Male") (js "Male: 7%, Male: 9%") [] (js ": ") (js "7")
            (js ", Male: 9%")) as Hl by leftmost_here.
  split.
  - split; [exact Hin|]. split; [exact Hsep|].
    exact (proj1 (proj1 (same_line_leftmost (js "Male:" ++ 10%N :: js "42%"))
                    Gender "male" (js "Male") Hin) Hsep).
  - split; [exact Hl|].
    exact (proj2 (proj1 (same_line_leftmost (js "Male: 7%, Male: 9%"))
                    Gender "male" (js "Male") Hin) _ _ _ _ Hl).
Defined.

(** ** The simulated delay *)

(** Against C8 as stated.  No environment, client, prompt or system
    instruction makes [callLLM] wait for anything but 500 ms. *)
Lemma delay_not_configurable :
  ~ exists (env : gmap string jsstring)
           (new_client : ChatAnthropicFields -> thrown + ChatAnthropic)
           (prompt : jsstring) (system : option jsstring) (ms : Z),
      ms ∈ delays (fst (callLLM (snd (init_module env new_client)) prompt system))
      /\ ms <> 500%Z.
Proof.
  intros (env & new_client & prompt & system & ms & Hin & Hne).
  pose proof (callLLM_delays (snd (init_module env new_client)) prompt system) as H.
  rewrite Forall_forall in H. by apply H in Hin.
Qed.

(** C8, as the code has it.  The delay of the mock path is the constant
    500 ms, a few hundred milliseconds, whatever the environment, the client
    constructor, the prompt and the system instruction.  Without a credential
    the call waits once, on that timer; a live call that is answered waits
    once, on the model call. *)
Theorem mock_delay_fixed (env : gmap string jsstring)
    (new_client : ChatAnthropicFields -> thrown + ChatAnthropic)
    (prompt : jsstring) (system : option jsstring) :
  Forall (fun ms => ms = 500%Z)
         (delays (fst (callLLM (snd (init_module env new_client)) prompt system)))
  /\ mockDelay = 500%Z /\ (100 <= mockDelay < 1000)%Z
  /\ (string_truthy (env !! "ANTHROPIC_API_KEY") = false ->
      delays (fst (callLLM (snd (init_module env new_client)) prompt system)) = [500%Z]
      /\ suspensions (fst (callLLM (snd (init_module env new_client)) prompt system)) = 1%nat)
  /\ (forall client r,
        llm (snd (init_module env new_client)) = Some client ->
        invoke client (build_messages prompt system) = Fulfilled r ->
        delays (fst (callLLM (snd (init_module env new_client)) prompt system)) = []
        /\ suspensions (fst (callLLM (snd (init_module env new_client)) prompt system))
           = 1%nat).
Proof.
  split; [apply callLLM_delays|]. split; [done|]. split; [done|]. split.
  - intros H. destruct (init_without_key env new_client H) as (Hl & _).
    by rewrite (callLLM_mock _ prompt system Hl).
  - intros client r Hl Hi.
    by destruct (callLLM_fulfilled _ client prompt system r Hl Hi) as (_ & -> & -> & _).
Qed.

Lemma mock_delay_fixed_witness :
  string_truthy ((∅ : gmap string jsstring) !! "ANTHROPIC_API_KEY") = false
  /\ delays (fst (callLLM (snd (init_module ∅ (fun _ => inr (answering_client sample_reply))))
                          (js "Summarise") None)) = [500%Z]
  /\ suspensions
       (fst (callLLM (snd (init_module ∅ (fun _ => inr (answering_client sample_reply))))
                     (js "Summarise") None)) = 1%nat.
Proof.
  split; [reflexivity|].
  exact (proj1 (proj2 (proj2 (proj2
           (mock_delay_fixed ∅ (fun _ => inr (answering_client sample_reply))
              (js "Summarise") None)))) eq_refl).
Defined.

(** ** Further properties of the model client *)

(** The token count of a reply: [usage_metadata] first, then
    [response_metadata.usage]. *)
Lemma callLLM_fulfilled_tokens (st : module_state) (client : ChatAnthropic)
    (prompt : jsstring) (system : option jsstring) (r : AIMessage) :
  llm st = Some client ->
  invoke client (build_messages prompt system) = Fulfilled r ->
  tokens_logged (fst (callLLM st prompt system)) =
  match (match usage_metadata_total_tokens r with
         | Some n => Some n
         | None => response_metadata_usage_total_tokens r
         end) with
  | Some t => if number_truthy t then [t] else []
  | None => []
  end.
Proof.
  intros Hl Hi. run_io. rewrite Hl. cbn -[mockLLMResponse js pretty build_messages].
  rewrite Hi. cbn -[mockLLMResponse js pretty build_messages].
  destruct (usage_metadata_total_tokens r) as [n|];
    [|destruct (response_metadata_usage_total_tokens r) as [n|]];
    try destruct (number_truthy n); done.
Qed.

(** X1. [callLLM] never throws, whatever the module state, the client's
    behaviour and the arguments. *)
Theorem callLLM_never_throws (st : module_state) (prompt : jsstring)
    (system : option jsstring) (e : thrown) :
  snd (callLLM st prompt system) <> Threw e.
Proof.
  destruct (llm st) as [client|] eqn:Hl.
  - destruct (invoke client (build_messages prompt system)) as [r|e'|] eqn:Hi.
    + by destruct (callLLM_fulfilled st client prompt system r Hl Hi) as (_ & _ & _ & ->).
    + by rewrite (callLLM_rejected st client prompt system e' Hl Hi).
    + by destruct (callLLM_pending st client prompt system Hl Hi) as (-> & _).
  - by rewrite (callLLM_mock st prompt system Hl).
Qed.

(** X2. [callLLM] returns a response in every case but one: it stays
    suspended exactly when there is a client and its call never settles. *)
Theorem callLLM_suspended_iff (st : module_state) (prompt : jsstring)
    (system : option jsstring) :
  (snd (callLLM st prompt system) = Suspended <->
   exists client, llm st = Some client
                  /\ invoke client (build_messages prompt system) = Pending)
  /\ (snd (callLLM st prompt system) <> Suspended ->
      exists r, snd (callLLM st prompt system) = Returned r).
Proof.
  destruct (llm st) as [client|] eqn:Hl.
  - destruct (invoke client (build_messages prompt system)) as [r|e'|] eqn:Hi.
    + destruct (callLLM_fulfilled st client prompt system r Hl Hi) as (_ & _ & _ & ->).
      split; [|by eauto]. split; [done|]. intros (c & [= <-] & Hp). congruence.
    + rewrite (callLLM_rejected st client prompt system e' Hl Hi).
      split; [|by eauto]. split; [done|]. intros (c & [= <-] & Hp). congruence.
    + destruct (callLLM_pending st client prompt system Hl Hi) as (-> & _).
      split; [|done]. split; [|done]. intros _. by exists client.
  - rewrite (callLLM_mock st prompt system Hl).
    split; [|by eauto]. split; [done|]. by intros (c & [=] & _).
Qed.

Lemma callLLM_suspended_iff_witness :
  snd (callLLM (live_state (answering_client sample_reply)) (js "Summarise") None)
    <> Suspended
  /\ exists r,
       snd (callLLM (live_state (answering_client sample_reply)) (js "Summarise") None)
       = Returned r.
Proof.
  assert (snd (callLLM (live_state (answering_client sample_reply)) (js "Summarise") None)
          <> Suspended) as H by discriminate.
  split; [exact H|].
  exact (proj2 (callLLM_suspended_iff (live_state (answering_client sample_reply))
                  (js "Summarise") None) H).
Defined.

(** X3. One call of [callLLM] makes at most one network call: none without
    a client, and otherwise exactly one, whose messages are the system
    instruction (only when it is a non-empty string) followed by the
    prompt. *)
Theorem callLLM_one_network_call (st : module_state) (prompt : jsstring)
    (system : option jsstring) :
  network_calls (fst (callLLM st prompt system)) =
  match llm st with
  | Some _ =>
      [match system with
       | Some (c :: s) => [SystemMessage (c :: s); HumanMessage prompt]
       | _ => [HumanMessage prompt]
       end]
  | None => []
  end.
Proof.
  assert (build_messages prompt system =
          match system with
          | Some (c :: s) => [SystemMessage (c :: s); HumanMessage prompt]
          | _ => [HumanMessage prompt]
          end) as Hm by (by destruct system as [[|c s]|]).
  rewrite <- Hm.
  destruct (llm st) as [client|] eqn:Hl.
  - destruct (invoke client (build_messages prompt system)) as [r|e'|] eqn:Hi.
    + by destruct (callLLM_fulfilled st client prompt system r Hl Hi) as (-> & _).
    + by rewrite (callLLM_rejected st client prompt system e' Hl Hi).
    + clear Hm. revert Hi. run_io. rewrite Hl.
      cbn -[mockLLMResponse js pretty build_messages]. by intros ->.
  - by rewrite (callLLM_mock st prompt system Hl).
Qed.

(** X4. An answered live call hands the reply through: the content (the
    string itself, or the JSON text of the content parts), the configured
    model name, and the token count taken from [usage_metadata] when it has
    one (a count of 0 included) and from [response_metadata.usage]
    otherwise. *)
Theorem live_reply_passthrough (st : module_state) (client : ChatAnthropic)
    (prompt : jsstring) (system : option jsstring) (r : AIMessage) :
  llm st = Some client ->
  invoke client (build_messages prompt system) = Fulfilled r ->
  exists response,
    snd (callLLM st prompt system) = Returned response
    /\ content response = match msg_content r with
                          | ContentText s => s
                          | ContentParts json => json
                          end
    /\ model response = Some (modelName st)
    /\ (forall n, usage_metadata_total_tokens r = Some n -> tokensUsed response = Some n)
    /\ (usage_metadata_total_tokens r = None ->
        tokensUsed response = response_metadata_usage_total_tokens r).
Proof.
  intros Hl Hi.
  destruct (callLLM_fulfilled st client prompt system r Hl Hi) as (_ & _ & _ & ->).
  eexists. split; [reflexivity|]. cbn. repeat split.
  - by intros n ->.
  - by intros ->.
Qed.

Lemma live_reply_passthrough_witness :
  exists response,
    snd (callLLM (live_state (answering_client sample_reply)) (js "Summarise") None)
      = Returned response
    /\ content response = js "Male: 40%"
    /\ tokensUsed response = Some (Fin 12).
Proof.
  destruct (live_reply_passthrough (live_state (answering_client sample_reply))
              (answering_client sample_reply) (js "Summarise") None sample_reply
              eq_refl eq_refl) as (response & Hr & Hc & _ & Ht & _).
  exists response. split; [exact Hr|]. split; [exact Hc|]. exact (Ht (Fin 12) eq_refl).
Defined.

(** X5. The token count of an answered call is written to the console
    exactly when it is truthy: a missing count, a count of 0 and NaN are
    returned without a log line. *)
Theorem token_log_iff_truthy (st : module_state) (client : ChatAnthropic)
    (prompt : jsstring) (system : option jsstring) (r : AIMessage) :
  llm st = Some client ->
  invoke client (build_messages prompt system) = Fulfilled r ->
  forall response, snd (callLLM st prompt system) = Returned response ->
    tokens_logged (fst (callLLM st prompt system)) =
    match tokensUsed response with
    | Some (Fin 0) | Some NaN | None => []
    | Some t => [t]
    end.
Proof.
  intros Hl Hi response Hr.
  rewrite (callLLM_fulfilled_tokens st client prompt system r Hl Hi).
  destruct (callLLM_fulfilled st client prompt system r Hl Hi) as (_ & _ & _ & Hs).
  rewrite Hs in Hr. injection Hr as <-. cbn [tokensUsed].
  destruct (match usage_metadata_total_tokens r with
            | Some n => Some n
            | None => response_metadata_usage_total_tokens r
            end) as [[| | |z]|]; try done.
  cbn. by destruct z.
Qed.

Lemma token_log_iff_truthy_witness :
  tokens_logged
    (fst (callLLM (live_state (answering_client
                     {| msg_content := ContentText (js "ok");
                        usage_metadata_total_tokens := Some (Fin 0);
                        response_metadata_usage_total_tokens := Some (Fin 77) |}))
                  (js "Summarise") None)) = [].
Proof.
  exact (token_log_iff_truthy
           (live_state (answering_client
              {| msg_content := ContentText (js "ok");
                 usage_metadata_total_tokens := Some (Fin 0);
                 response_metadata_usage_total_tokens := Some (Fin 77) |}))
           (answering_client
              {| msg_content := ContentText (js "ok");
                 usage_metadata_total_tokens := Some (Fin 0);
                 response_metadata_usage_total_tokens := Some (Fin 77) |})
           (js "Summarise") None _ eq_refl eq_refl _ eq_refl).
Defined.

(** X6. A live call that fails costs both waits: the model call is made
    once, then the mock path's 500 ms timer runs, so the caller is suspended
    twice; no token count is logged. *)
Theorem fallback_waits_twice (st : module_state) (client : ChatAnthropic)
    (prompt : jsstring) (system : option jsstring) (e : thrown) :
  llm st = Some client ->
  invoke client (build_messages prompt system) = Rejected e ->
  network_calls (fst (callLLM st prompt system)) = [build_messages prompt system]
  /\ delays (fst (callLLM st prompt system)) = [500%Z]
  /\ suspensions (fst (callLLM st prompt system)) = 2%nat
  /\ tokens_logged (fst (callLLM st prompt system)) = [].
Proof.
  intros Hl Hi. rewrite (callLLM_rejected st client prompt system e Hl Hi).
  cbn -[build_messages js pretty]. by destruct e.
Qed.

Lemma fallback_waits_twice_witness :
  suspensions (fst (callLLM (live_state (failing_client (ThrownValue (js "timeout"))))
                            (js "Summarise") None)) = 2%nat.
Proof.
  exact (proj1 (proj2 (proj2 (fallback_waits_twice
           (live_state (failing_client (ThrownValue (js "timeout"))))
           (failing_client (ThrownValue (js "timeout")))
           (js "Summarise") None (ThrownValue (js "timeout")) eq_refl eq_refl)))).
Defined.

(** X7. The [model] field tells which path answered.  Unless the configured
    model name is itself [mock-llm-v1], a returned response either is the
    mock response (and the timer ran), or carries the configured model name
    and comes from an answered live call (and no timer ran). *)
Theorem model_field_provenance (st : module_state) (prompt : jsstring)
    (system : option jsstring) (response : LLMResponse) :
  modelName st <> mockModel ->
  snd (callLLM st prompt system) = Returned response ->
  (model response = Some mockModel
   /\ response = mockLLMResponse
   /\ delays (fst (callLLM st prompt system)) = [500%Z])
  \/ (model response = Some (modelName st)
      /\ model response <> Some mockModel
      /\ delays (fst (callLLM st prompt system)) = []
      /\ exists client reply,
           llm st = Some client
           /\ invoke client (build_messages prompt system) = Fulfilled reply).
Proof.
  intros Hne Hr.
  destruct (llm st) as [client|] eqn:Hl.
  - destruct (invoke client (build_messages prompt system)) as [r|e'|] eqn:Hi.
    + destruct (callLLM_fulfilled st client prompt system r Hl Hi) as (_ & Hd & _ & Hs).
      rewrite Hs in Hr. injection Hr as <-. right. cbn [model].
      split; [done|]. split; [congruence|]. split; [done|]. by exists client, r.
    + rewrite (callLLM_rejected st client prompt system e' Hl Hi) in Hr |- *.
      injection Hr as <-. left. cbn -[build_messages js pretty mockLLMResponse].
      by destruct e'.
    + destruct (callLLM_pending st client prompt system Hl Hi) as (Hs & _). congruence.
  - rewrite (callLLM_mock st prompt system Hl) in Hr |- *.
    injection Hr as <-. by left.
Qed.

Lemma model_field_provenance_witness :
  modelName (live_state (answering_client sample_reply)) <> mockModel
  /\ snd (callLLM (live_state (answering_client sample_reply)) (js "Summarise") None)
     = Returned {| content := js "Male: 40%";
                   model := Some defaultModel;
                   tokensUsed := Some (Fin 12) |}
  /\ delays (fst (callLLM (live_state (answering_client sample_reply))
                          (js "Summarise") None)) = [].
Proof.
  assert (modelName (live_state (answering_client sample_reply)) <> mockModel) as Hne
    by (apply (bool_decide_unpack _); vm_compute; exact I).
  split; [exact Hne|]. split; [reflexivity|].
  destruct (model_field_provenance (live_state (answering_client sample_reply))
              (js "Summarise") None
              {| content := js "Male: 40%";
                 model := Some defaultModel;
                 tokensUsed := Some (Fin 12) |} Hne eq_refl)
    as [(Hm & _)|(_ & _ & Hd & _)].
  - exfalso. apply Hne. cbn [model] in Hm. by injection Hm.
  - exact Hd.
Defined.

(** ** Further properties of the module initialisation *)

(** The arguments the constructor is called with. *)
Lemma init_with_key (env : gmap string jsstring)
    (new_client : ChatAnthropicFields -> thrown + ChatAnthropic) :
  string_truthy (env !! "ANTHROPIC_API_KEY") = true ->
  constructions (fst (init_module env new_client)) =
    [{| f_modelName := default defaultModel (env !! "LLM_MODEL");
        f_temperature := 1 # 10;
        f_anthropicApiKey := env !! "ANTHROPIC_API_KEY" |}]
  /\ useMockLLM (snd (init_module env new_client)) = false
  /\ modelName (snd (init_module env new_client)) = default defaultModel (env !! "LLM_MODEL")
  /\ llm (snd (init_module env new_client)) =
     match new_client {| f_modelName := default defaultModel (env !! "LLM_MODEL");
                         f_temperature := 1 # 10;
                         f_anthropicApiKey := env !! "ANTHROPIC_API_KEY" |} with
     | inr client => Some client
     | inl _ => None
     end.
Proof.
  intros H. unfold init_module, defaultModel. rewrite H.
  cbn -[js]. by destruct (new_client _).
Qed.

(** X8. A constructor that throws is not fatal: the module loads with no
    client (although [useMockLLM] stays false), and every later call returns
    the mock response without a network call. *)
Theorem constructor_failure_demotes (env : gmap string jsstring)
    (new_client : ChatAnthropicFields -> thrown + ChatAnthropic) (e : thrown)
    (prompt : jsstring) (system : option jsstring) :
  string_truthy (env !! "ANTHROPIC_API_KEY") = true ->
  new_client {| f_modelName := default defaultModel (env !! "LLM_MODEL");
                f_temperature := 1 # 10;
                f_anthropicApiKey := env !! "ANTHROPIC_API_KEY" |} = inl e ->
  llm (snd (init_module env new_client)) = None
  /\ useMockLLM (snd (init_module env new_client)) = false
  /\ snd (callLLM (snd (init_module env new_client)) prompt system)
     = Returned mockLLMResponse
  /\ network_calls (fst (callLLM (snd (init_module env new_client)) prompt system)) = [].
Proof.
  intros Hk He. destruct (init_with_key env new_client Hk) as (_ & Hu & _ & Hl).
  rewrite He in Hl. split; [done|]. split; [done|].
  by rewrite (callLLM_mock _ prompt system Hl).
Qed.

Lemma constructor_failure_demotes_witness :
  snd (callLLM (snd (init_module {[ "ANTHROPIC_API_KEY" := js "sk-test" ]}
                       (throwing_constructor (ErrorObject (js "bad key")))))
               (js "Summarise") None)
  = Returned mockLLMResponse.
Proof.
  exact (proj1 (proj2 (proj2 (constructor_failure_demotes
           {[ "ANTHROPIC_API_KEY" := js "sk-test" ]}
           (throwing_constructor (ErrorObject (js "bad key")))
           (ErrorObject (js "bad key")) (js "Summarise") None eq_refl eq_refl)))).
Defined.

(** X9. Loading the module calls the constructor exactly when the
    credential is a non-empty string, once, with the model name, the
    temperature 0.1 and the credential; an unset or empty credential
    constructs nothing and warns once. *)
Theorem constructor_called_iff_key (env : gmap string jsstring)
    (new_client : ChatAnthropicFields -> thrown + ChatAnthropic) :
  constructions (fst (init_module env new_client)) =
    (if string_truthy (env !! "ANTHROPIC_API_KEY")
     then [{| f_modelName := default defaultModel (env !! "LLM_MODEL");
              f_temperature := 1 # 10;
              f_anthropicApiKey := env !! "ANTHROPIC_API_KEY" |}]
     else [])
  /\ network_calls (fst (init_module env new_client)) = []
  /\ useMockLLM (snd (init_module env new_client))
     = negb (string_truthy (env !! "ANTHROPIC_API_KEY"))
  /\ (string_truthy (env !! "ANTHROPIC_API_KEY") = false ->
      fst (init_module env new_client) =
      [Console ConsoleWarn [ArgString (js
         "[LLM] ANTHROPIC_API_KEY is not set. Using mock LLM responses. Set ANTHROPIC_API_KEY to enable real Anthropic Claude integration.")]]).
Proof.
  destruct (string_truthy (env !! "ANTHROPIC_API_KEY")) eqn:Hk.
  - destruct (init_with_key env new_client Hk) as (Hc & Hu & _ & _).
    split; [done|]. split; [|done].
    unfold init_module. rewrite Hk. cbn -[js]. by destruct (new_client _).
  - unfold init_module. rewrite Hk. cbn -[js]. done.
Qed.

Lemma constructor_called_iff_key_witness :
  string_truthy (({[ "ANTHROPIC_API_KEY" := [] ]} : gmap string jsstring)
                   !! "ANTHROPIC_API_KEY") = false
  /\ fst (init_module {[ "ANTHROPIC_API_KEY" := [] ]}
            (fun _ => inr (answering_client sample_reply))) =
     [Console ConsoleWarn [ArgString (js
        "[LLM] ANTHROPIC_API_KEY is not set. Using mock LLM responses. Set ANTHROPIC_API_KEY to enable real Anthropic Claude integration.")]].
Proof.
  assert (string_truthy (({[ "ANTHROPIC_API_KEY" := [] ]} : gmap string jsstring)
                           !! "ANTHROPIC_API_KEY") = false) as Hk by reflexivity.
  split; [exact Hk|].
  exact (proj2 (proj2 (proj2 (constructor_called_iff_key
           ({[ "ANTHROPIC_API_KEY" := [] ]} : gmap string jsstring)
           (fun _ => inr (answering_client sample_reply))))) Hk).
Defined.

(** X10. With a credential, a constructor that succeeds and a call that is
    answered, the response names the model read from [LLM_MODEL], or the
    default model when the variable is not set; a variable set to the empty
    string is kept as it is. *)
Theorem model_name_from_env (env : gmap string jsstring)
    (new_client : ChatAnthropicFields -> thrown + ChatAnthropic)
    (client : ChatAnthropic) (prompt : jsstring) (system : option jsstring)
    (r : AIMessage) :
  string_truthy (env !! "ANTHROPIC_API_KEY") = true ->
  new_client {| f_modelName := default defaultModel (env !! "LLM_MODEL");
                f_temperature := 1 # 10;
                f_anthropicApiKey := env !! "ANTHROPIC_API_KEY" |} = inr client ->
  invoke client (build_messages prompt system) = Fulfilled r ->
  exists response,
    snd (callLLM (snd (init_module env new_client)) prompt system) = Returned response
    /\ model response = Some (match env !! "LLM_MODEL" with
                              | Some name => name
                              | None => js "claude-3-5-sonnet-20241022"
                              end).
Proof.
  intros Hk Hc Hi. destruct (init_with_key env new_client Hk) as (_ & _ & Hm & Hl).
  rewrite Hc in Hl.
  destruct (callLLM_fulfilled _ client prompt system r Hl Hi) as (_ & _ & _ & ->).
  eexists. split; [reflexivity|]. cbn [model]. rewrite Hm. by destruct (env !! "LLM_MODEL").
Qed.

Lemma model_name_from_env_witness :
  exists response,
    snd (callLLM (snd (init_module {[ "ANTHROPIC_API_KEY" := js "sk-test";
                                      "LLM_MODEL" := [] ]}
                         (fun _ => inr (answering_client sample_reply))))
                 (js "Summarise") None) = Returned response
    /\ model response = Some [].
Proof.
  exact (model_name_from_env
           {[ "ANTHROPIC_API_KEY" := js "sk-test"; "LLM_MODEL" := [] ]}
           (fun _ => inr (answering_client sample_reply))
           (answering_client sample_reply) (js "Summarise") None sample_reply
           eq_refl eq_refl eq_refl).
Defined.

(** ** Further properties of the extractor *)

Ltac find_label :=
  unfold search_labels, searched_keys; cbn [map snd app];
  solve [ repeat first [ apply list_elem_of_here | apply list_elem_of_further ] ].

Lemma searched_key_label (cat : category) (key : string) (label : jsstring) :
  (cat, key, label) ∈ searched_keys -> label ∈ search_labels.
Proof.
  intros H. unfold search_labels. apply elem_of_app. left.
  apply list_elem_of_fmap. by exists (cat, key, label).
Qed.

(** The result is fixed by the outcome of the sixteen searches. *)
Lemma parse_all_absent (text : jsstring) :
  (forall label, label ∈ search_labels ->
     extractPercentage text (label_pattern label) = Fin 0) ->
  parseDemographicResponse text = parseDemographicResponse [].
Proof.
  intros H.
  assert (forall label, extractPercentage [] (label_pattern label) = Fin 0) as H0.
  { intros label. apply extractPercentage_absent. intros pre mid ds post. apply figure_nil. }
  unfold parseDemographicResponse.
  repeat match goal with
         | |- context [extractPercentage text (label_pattern ?l)] =>
             rewrite (H l) by find_label
         end.
  by rewrite !H0.
Qed.

Lemma figure_has_percent (label text pre mid ds post : jsstring) :
  figure label text pre mid ds post -> percent ∈ text.
Proof. intros (-> & _). set_solver. Qed.

Lemma figure_has_label_head (c : char16) (label text pre mid ds post : jsstring) :
  figure (c :: label) text pre mid ds post -> c ∈ text.
Proof. intros (-> & _). set_solver. Qed.

(** X11. A text without a percent sign gives the result of the empty text:
    every percentage 0. *)
Theorem no_percent_sign_all_zero (text : jsstring) :
  percent ∉ text ->
  parseDemographicResponse text = parseDemographicResponse [].
Proof.
  intros Hno. apply parse_all_absent. intros label _.
  apply extractPercentage_absent. intros pre mid ds post Hf.
  by apply figure_has_percent in Hf.
Qed.

Lemma no_percent_sign_all_zero_witness :
  parseDemographicResponse (js "Male: 42 percent, Female: 48 percent")
  = parseDemographicResponse [].
Proof.
  apply (no_percent_sign_all_zero (js "Male: 42 percent, Female: 48 percent")).
  apply (bool_decide_unpack _). vm_compute. exact I.
Defined.

(** X12. The labels are matched case-sensitively and each starts with a
    capital letter: a text without upper-case ASCII letters gives the result
    of the empty text. *)
Theorem no_capital_all_zero (text : jsstring) :
  Forall (fun c => is_upper c = false) text ->
  parseDemographicResponse text = parseDemographicResponse [].
Proof.
  intros Hlow. apply parse_all_absent. intros label Hin.
  assert (exists c l, label = c :: l /\ is_upper c = true) as (c & l & -> & Hc).
  { unfold search_labels, searched_keys in Hin. cbn [map snd app] in Hin.
    repeat (apply elem_of_cons in Hin as [->|Hin]); try (by apply elem_of_nil in Hin);
      eexists _, _; (split; [vm_compute; reflexivity|reflexivity]). }
  apply extractPercentage_absent. intros pre mid ds post Hf.
  apply figure_has_label_head in Hf.
  rewrite Forall_forall in Hlow. specialize (Hlow _ Hf). congruence.
Qed.

Lemma no_capital_all_zero_witness :
  parseDemographicResponse (js "male: 42%, female: 48%, europe: 28%")
  = parseDemographicResponse [].
Proof.
  apply (no_capital_all_zero (js "male: 42%, female: 48%, europe: 28%")).
  eval_js. repeat constructor.
Defined.

(** *** Lines *)

Lemma take_while_app_stop {A} (p : A -> bool) (s r t : list A) (c : A) :
  drop_while p s = c :: t ->
  take_while p (s ++ r) = take_while p s /\ drop_while p (s ++ r) = c :: t ++ r.
Proof.
  induction s as [|a s IH]; cbn; [done|].
  destruct (p a) eqn:E.
  - intros H. destruct (IH H) as [-> ->]. done.
  - by intros [= -> ->].
Qed.

Lemma take_while_app_all {A} (p : A -> bool) (s r : list A) :
  drop_while p s = [] ->
  take_while p (s ++ r) = s ++ take_while p r /\ drop_while p (s ++ r) = drop_while p r.
Proof.
  induction s as [|a s IH]; cbn; [done|].
  destruct (p a) eqn:E; [|done].
  intros H. destruct (IH H) as [-> ->]. done.
Qed.

Lemma line_terminator_not_digit (c : char16) :
  is_line_terminator c = true -> is_digit c = false.
Proof.
  unfold is_line_terminator, is_digit. intros H.
  repeat (apply orb_prop in H as [H|H]); apply N.eqb_eq in H as ->; reflexivity.
Qed.

Lemma line_terminator_not_percent (c : char16) :
  is_line_terminator c = true -> (c =? percent)%N = false.
Proof.
  unfold is_line_terminator. intros H.
  repeat (apply orb_prop in H as [H|H]); apply N.eqb_eq in H as ->; reflexivity.
Qed.

Lemma digit_not_line_terminator (c : char16) :
  is_digit c = true -> is_line_terminator c = false.
Proof.
  intros H. destruct (is_line_terminator c) eqn:E; [|done].
  apply line_terminator_not_digit in E. congruence.
Qed.

(** A digit run is not read across a line terminator. *)
Lemma digits_then_percent_line (s rest : jsstring) (nl : char16) :
  is_line_terminator nl = true ->
  digits_then_percent (s ++ nl :: rest) = digits_then_percent s.
Proof.
  intros Hnl. unfold digits_then_percent.
  destruct (drop_while is_digit s) as [|c t] eqn:Hd.
  - destruct (take_while_app_all is_digit s (nl :: rest) Hd) as [-> ->].
    cbn [take_while drop_while]. rewrite (line_terminator_not_digit nl Hnl).
    rewrite app_nil_r, (line_terminator_not_percent nl Hnl).
    destruct (take_while is_digit s); by destruct s.
  - destruct (take_while_app_stop is_digit s (nl :: rest) t c Hd) as [-> ->]. done.
Qed.

(** Nor is a figure looked for beyond the end of the line. *)
Lemma first_figure_line (s rest : jsstring) (nl : char16) :
  is_line_terminator nl = true ->
  first_figure (s ++ nl :: rest) = first_figure s.
Proof.
  intros Hnl. induction s as [|c s IH].
  - pose proof (digits_then_percent_line [] rest nl Hnl) as H. cbn [app] in H.
    cbn [app first_figure]. rewrite H. cbn. by rewrite Hnl.
  - change ((c :: s) ++ nl :: rest) with (c :: (s ++ nl :: rest)).
    cbn [first_figure].
    change (c :: (s ++ nl :: rest)) with ((c :: s) ++ nl :: rest).
    rewrite (digits_then_percent_line (c :: s) rest nl Hnl).
    destruct (digits_then_percent (c :: s)); [done|].
    destruct (is_line_terminator c); [done|]. apply IH.
Qed.

Lemma is_prefix_length (l s : jsstring) :
  is_prefix l s = true -> (length l <= length s)%nat.
Proof.
  intros H%is_prefix_split. rewrite H, length_app. lia.
Qed.

Lemma is_prefix_line (label s rest : jsstring) (nl : char16) :
  one_line label -> is_line_terminator nl = true ->
  is_prefix label (s ++ nl :: rest) = is_prefix label s.
Proof.
  intros Hl Hnl. revert s. induction Hl as [|c label Hc _ IH]; intros s; [done|].
  destruct s as [|a s]; cbn.
  - replace (c =? nl)%N with false; [done|].
    symmetry. apply N.eqb_neq. intros ->. congruence.
  - by rewrite IH.
Qed.

Lemma head_search_line (label s rest : jsstring) (nl : char16) :
  one_line label -> is_line_terminator nl = true ->
  head_search label (s ++ nl :: rest) = head_search label s.
Proof.
  intros Hl Hnl. unfold head_search. rewrite (is_prefix_line label s rest nl Hl Hnl).
  destruct (is_prefix label s) eqn:Hp; [|done].
  rewrite drop_app_le by (by apply is_prefix_length).
  by apply first_figure_line.
Qed.

Lemma label_search_unfold (label text : jsstring) :
  label_search label text =
  match head_search label text with
  | Some ds => Some ds
  | None =>
      match text with
      | _ :: text' => label_search label text'
      | [] => None
      end
  end.
Proof. by destruct text. Qed.

(** The scan of two parts joined by a line terminator: the first part
    decides when it has a figure, and the second part otherwise. *)
Lemma label_search_line (label a b : jsstring) (nl : char16) :
  one_line label -> is_line_terminator nl = true ->
  label_search label (a ++ nl :: b) =
  match label_search label a with
  | Some ds => Some ds
  | None => label_search label b
  end.
Proof.
  intros Hl Hnl. induction a as [|c a IH].
  - rewrite (label_search_unfold label ([] ++ nl :: b)), (label_search_unfold label []).
    rewrite (head_search_line label [] b nl Hl Hnl).
    by destruct (head_search label []).
  - rewrite (label_search_unfold label ((c :: a) ++ nl :: b)),
            (label_search_unfold label (c :: a)).
    rewrite (head_search_line label (c :: a) b nl Hl Hnl).
    destruct (head_search label (c :: a)); [done|]. apply IH.
Qed.

Lemma search_labels_one_line (label : jsstring) :
  label ∈ search_labels -> one_line label.
Proof.
  intros Hin. unfold search_labels, searched_keys in Hin. cbn [map snd app] in Hin.
  repeat (apply elem_of_cons in Hin as [->|Hin]); try (by apply elem_of_nil in Hin);
    eval_js; by repeat constructor.
Qed.

(** X13. The search goes line by line.  For a text made of two parts joined
    by a line terminator (LF, CR, LS or PS), each searched key is read from
    the first part when the pattern matches there, and from the second part
    otherwise. *)
Theorem search_line_by_line (cat : category) (key : string)
    (label a b : jsstring) (nl : char16) :
  (cat, key, label) ∈ searched_keys ->
  is_line_terminator nl = true ->
  category_map cat (parseDemographicResponse (a ++ nl :: b)) !! key =
  match string_match a (label_pattern label) with
  | Some _ => category_map cat (parseDemographicResponse a) !! key
  | None => category_map cat (parseDemographicResponse b) !! key
  end.
Proof.
  intros Hin Hnl.
  pose proof (search_labels_one_line label (searched_key_label _ _ _ Hin)) as Hl.
  rewrite !(parse_searched _ _ _ _ Hin), string_match_label, !extractPercentage_label.
  rewrite (label_search_line label a b nl Hl Hnl).
  by destruct (label_search label a).
Qed.

Lemma search_line_by_line_witness :
  gender (parseDemographicResponse (js "Male cohort" ++ 13%N :: 10%N :: js "Male: 9%"))
    !! "male" = Some (Fin 9).
Proof.
  assert ((Gender, "male", js "Male") ∈ searched_keys) as Hin by find_key.
  exact (search_line_by_line Gender "male" (js "Male") (js "Male cohort")
           (10%N :: js "Male: 9%") 13%N Hin eq_refl).
Defined.

(** *** Figures with a separator *)

Lemma first_figure_skip (m s : jsstring) :
  Forall (fun c => is_digit c = false) m -> one_line m ->
  first_figure (m ++ s) = first_figure s.
Proof.
  intros Hnd Hm. induction Hnd as [|c m Hc _ IH]; [done|].
  apply Forall_cons in Hm as [Hlt Hm].
  change ((c :: m) ++ s) with (c :: (m ++ s)). cbn [first_figure].
  unfold digits_then_percent at 1. cbn [take_while drop_while]. rewrite Hc, Hlt.
  by apply IH.
Qed.

Lemma first_figure_skip_digits (ds s : jsstring) (sep : char16) :
  all_digits ds -> is_digit sep = false -> sep <> percent ->
  first_figure (ds ++ sep :: s) = first_figure (sep :: s).
Proof.
  intros Hds Hsep Hne. induction Hds as [|d ds Hd Hds IH]; [done|].
  change ((d :: ds) ++ sep :: s) with (d :: (ds ++ sep :: s)). cbn [first_figure].
  unfold digits_then_percent at 1.
  change (d :: (ds ++ sep :: s)) with ((d :: ds) ++ sep :: s).
  destruct (take_while_run is_digit (d :: ds) s sep) as [-> ->];
    [by constructor|done|].
  replace (sep =? percent)%N with false by (symmetry; by apply N.eqb_neq).
  rewrite (digit_not_line_terminator d Hd). apply IH.
Qed.

Lemma first_figure_here (ds post : jsstring) :
  all_digits ds -> ds <> [] -> first_figure (ds ++ percent :: post) = Some ds.
Proof.
  intros Hds Hne.
  assert (digits_then_percent (ds ++ percent :: post) = Some ds) as H
    by (apply digits_then_percent_Some; eauto).
  destruct ds as [|d ds]; [done|].
  change ((d :: ds) ++ percent :: post) with (d :: (ds ++ percent :: post)) in *.
  cbn [first_figure]. by rewrite H.
Qed.

(** A head search that succeeds is a figure at the very start. *)
Lemma head_search_figure (label text ds : jsstring) :
  head_search label text = Some ds ->
  exists mid post, figure label text [] mid ds post.
Proof.
  unfold head_search. destruct (is_prefix label text) eqn:Hp; [|done].
  intros (mid & post & Hd & Hmid & Hds & Hne & _)%first_figure_Some.
  exists mid, post. split; [|done]. cbn [app]. rewrite <- Hd. by apply is_prefix_split.
Qed.

(** The scan passes over a prefix in which no figure for the label begins. *)
Lemma label_search_skip_prefix (label pre t : jsstring) :
  (forall pre' mid' ds' post',
     figure label (pre ++ t) pre' mid' ds' post' -> (length pre <= length pre')%nat) ->
  label_search label (pre ++ t) = label_search label t.
Proof.
  induction pre as [|c pre IH]; intros Hno; [done|].
  rewrite (label_search_unfold label ((c :: pre) ++ t)).
  destruct (head_search label ((c :: pre) ++ t)) as [ds0|] eqn:E.
  - apply head_search_figure in E as (mid & post & Hf).
    specialize (Hno _ _ _ _ Hf). cbn in Hno. lia.
  - cbn [app]. apply IH. intros pre' mid' ds' post' Hf.
    apply (proj2 (figure_cons label c (pre ++ t) pre' mid' ds' post')) in Hf.
    specialize (Hno _ _ _ _ Hf). cbn in Hno. lia.
Qed.

(** Ways to see that no figure begins before a given prefix. *)
Lemma no_earlier_figure_nil (label text : jsstring) :
  forall pre' mid' ds' post',
    figure label text pre' mid' ds' post' -> (length (@nil char16) <= length pre')%nat.
Proof. intros. cbn. lia. Qed.

Lemma no_earlier_figure_cons (c : char16) (label pre t : jsstring) :
  is_prefix label (c :: pre ++ t) = false ->
  (forall pre' mid' ds' post',
     figure label (pre ++ t) pre' mid' ds' post' -> (length pre <= length pre')%nat) ->
  forall pre' mid' ds' post',
    figure label ((c :: pre) ++ t) pre' mid' ds' post' ->
    (length (c :: pre) <= length pre')%nat.
Proof.
  intros Hp Hno pre' mid' ds' post' Hf. cbn [app] in Hf.
  destruct pre' as [|a pre'].
  - destruct (figure_at_start _ _ _ _ _ Hf) as [Hp' _]. congruence.
  - pose proof (figure_head _ _ _ _ _ _ _ _ Hf) as ->.
    apply (proj1 (figure_cons _ _ _ _ _ _ _)) in Hf.
    specialize (Hno _ _ _ _ Hf). cbn. lia.
Qed.

(** X14. Only the digits directly before the percent sign are read.  Take
    the first occurrence of a searched label at which a figure begins,
    wherever it stands in the text.  When it is followed by text without
    digits and line terminators, then digits, a separator that is neither a
    digit, a percent sign nor a line terminator (a decimal point, a comma, a
    hyphen), more digits and a percent sign, the digits before the separator
    are dropped and the key holds the number written after it. *)
Theorem separator_drops_leading_digits (cat : category) (key : string)
    (label pre mid ds1 ds2 post : jsstring) (sep : char16) :
  (cat, key, label) ∈ searched_keys ->
  (forall pre' mid' ds' post',
     figure label (pre ++ label ++ mid ++ ds1 ++ sep :: ds2 ++ percent :: post)
       pre' mid' ds' post' ->
     (length pre <= length pre')%nat) ->
  Forall (fun c => is_digit c = false) mid -> one_line mid ->
  all_digits ds1 ->
  is_digit sep = false -> sep <> percent -> is_line_terminator sep = false ->
  all_digits ds2 -> ds2 <> [] ->
  category_map cat
    (parseDemographicResponse
       (pre ++ label ++ mid ++ ds1 ++ sep :: ds2 ++ percent :: post))
    !! key = Some (of_Z (decimal ds2)).
Proof.
  intros Hin Hno Hnd Hmid Hds1 Hsep Hne Hlt Hds2 Hne2.
  rewrite (parse_searched _ _ _ _ Hin), extractPercentage_label.
  rewrite (label_search_skip_prefix label pre _ Hno).
  rewrite label_search_unfold. unfold head_search.
  rewrite is_prefix_app, drop_app_length.
  rewrite (first_figure_skip mid _ Hnd Hmid).
  rewrite (first_figure_skip_digits ds1 _ sep Hds1 Hsep Hne).
  change (sep :: ds2 ++ percent :: post) with ([sep] ++ ds2 ++ percent :: post).
  rewrite (first_figure_skip [sep] (ds2 ++ percent :: post))
    by (by repeat constructor).
  by rewrite (first_figure_here ds2 post Hds2 Hne2).
Qed.

Lemma separator_drops_leading_digits_witness :
  gender (parseDemographicResponse (js "- Male: 12.5% of participants")) !! "male"
  = Some (Fin 5).
Proof.
  assert ((Gender, "male", js "Male") ∈ searched_keys) as Hin by find_key.
  assert (forall pre' mid' ds' post',
            figure (js "Male")
              (js "- " ++ js "Male" ++ js ": " ++ js "12" ++ 46%N :: js "5" ++
               percent :: js " of participants") pre' mid' ds' post' ->
            (length (js "- ") <= length pre')%nat) as Hno.
  { eval_js.
    repeat (apply no_earlier_figure_cons; [reflexivity|]).
    apply no_earlier_figure_nil. }
  exact (separator_drops_leading_digits Gender "male" (js "Male") (js "- ") (js ": ")
           (js "12") (js "5") (js " of participants") 46%N Hin Hno
           ltac:(eval_js; by repeat constructor) ltac:(eval_js; by repeat constructor)
           ltac:(eval_js; by repeat constructor) eq_refl ltac:(done) eq_refl
           ltac:(eval_js; by repeat constructor) ltac:(done)).
Defined.

(** *** Short digit runs *)

Lemma radix_value_bound (ds : jsstring) (acc : Z) :
  all_digits ds -> (0 <= acc)%Z ->
  (fold_left (fun a c => a * 10 + default 0 (digit_value 10 c)) ds acc
   < (acc + 1) * 10 ^ Z.of_nat (length ds))%Z.
Proof.
  intros Hds. revert acc. induction Hds as [|d ds Hd _ IH]; intros acc Hacc.
  - cbn. lia.
  - cbn [fold_left length]. rewrite (digit_value_decimal d Hd). cbn [from_option id].
    apply is_digit_bounds in Hd.
    eapply Z.lt_le_trans; [apply IH; lia|].
    rewrite Nat2Z.inj_succ, Z.pow_succ_r by lia.
    assert (0 < 10 ^ Z.of_nat (length ds))%Z by (apply Z.pow_pos_nonneg; lia).
    nia.
Qed.

Lemma decimal_bound (ds : jsstring) :
  all_digits ds -> (decimal ds < 10 ^ Z.of_nat (length ds))%Z.
Proof.
  intros Hds. unfold decimal, radix_value.
  pose proof (radix_value_bound ds 0 Hds ltac:(lia)). lia.
Qed.

(** X15. A figure of at most fifteen digits is read exactly: the key holds
    the integer the digits write, which is below 10^15. *)
Theorem short_figures_exact (cat : category) (key : string)
    (label text pre mid ds post : jsstring) :
  (cat, key, label) ∈ searched_keys ->
  leftmost_figure label text pre mid ds post ->
  (length ds <= 15)%nat ->
  category_map cat (parseDemographicResponse text) !! key = Some (Fin (decimal ds))
  /\ (0 <= decimal ds < 10 ^ 15)%Z.
Proof.
  intros Hin Hl Hlen.
  pose proof Hl as [(_ & _ & Hds & _) _].
  pose proof (decimal_bound ds Hds) as Hb. pose proof (decimal_nonneg ds) as H0.
  assert (10 ^ Z.of_nat (length ds) <= 10 ^ 15)%Z as Hp
    by (apply Z.pow_le_mono_r; lia).
  split; [|lia].
  rewrite (parse_searched _ _ _ _ Hin), (extractPercentage_leftmost _ _ _ _ _ _ Hl).
  f_equal. apply of_Z_exact.
  assert (10 ^ 15 < 2 ^ 53)%Z by (vm_compute; reflexivity). lia.
Qed.

Lemma short_figures_exact_witness :
  geography (parseDemographicResponse (js "Asia: 000000000000120%")) !! "Asia"
  = Some (Fin 120).
Proof.
  assert ((Geography, "Asia", js "Asia") ∈ searched_keys) as Hin by find_key.
  assert (leftmost_figure (js "Asia") (js "Asia: 000000000000120%") [] (js ": ")
            (js "000000000000120") []) as Hl by leftmost_here.
  exact (proj1 (short_figures_exact Geography "Asia" (js "Asia")
                  (js "Asia: 000000000000120%") [] (js ": ") (js "000000000000120") []
                  Hin Hl ltac:(vm_compute; lia))).
Defined.

(** *** Text added after a match *)

Lemma drop_while_nil_all {A} (p : A -> bool) (s : list A) :
  drop_while p s = [] -> Forall (fun c => p c = true) s.
Proof.
  induction s as [|c s IH]; cbn; [constructor|].
  destruct (p c) eqn:E; [|done]. intros H. constructor; [done|by apply IH].
Qed.

Lemma digits_then_percent_app (s suffix ds : jsstring) :
  digits_then_percent s = Some ds -> digits_then_percent (s ++ suffix) = Some ds.
Proof.
  intros (Hds & Hne & post & ->)%digits_then_percent_Some.
  apply digits_then_percent_Some. split; [done|]. split; [done|].
  exists (post ++ suffix). by rewrite <- app_assoc.
Qed.

Lemma digits_then_percent_app_stop (s suffix : jsstring) :
  drop_while is_digit s <> [] ->
  digits_then_percent (s ++ suffix) = digits_then_percent s.
Proof.
  intros Hd. unfold digits_then_percent.
  destruct (drop_while is_digit s) as [|c t] eqn:E; [done|].
  by destruct (take_while_app_stop is_digit s suffix t c E) as [-> ->].
Qed.

Lemma has_percent_not_all_digits (s : jsstring) :
  percent ∈ s -> drop_while is_digit s <> [].
Proof.
  intros Hin Hd. apply drop_while_nil_all in Hd.
  rewrite Forall_forall in Hd. by specialize (Hd _ Hin).
Qed.

Lemma first_figure_app (s suffix ds : jsstring) :
  first_figure s = Some ds -> first_figure (s ++ suffix) = Some ds.
Proof.
  induction s as [|c s IH]; [done|].
  change ((c :: s) ++ suffix) with (c :: (s ++ suffix)). cbn [first_figure].
  change (c :: (s ++ suffix)) with ((c :: s) ++ suffix).
  destruct (digits_then_percent (c :: s)) as [ds0|] eqn:E.
  - intros [= ->]. by rewrite (digits_then_percent_app _ suffix _ E).
  - destruct (is_line_terminator c) eqn:Hc; [done|]. intros Hf.
    rewrite digits_then_percent_app_stop, E; [by apply IH|].
    apply has_percent_not_all_digits.
    apply first_figure_Some in Hf as (mid & post & -> & _). set_solver.
Qed.

Lemma one_line_or_split (m : jsstring) :
  one_line m \/ exists a nl b, m = a ++ nl :: b /\ is_line_terminator nl = true.
Proof.
  induction m as [|c m [IH|(a & nl & b & -> & Hnl)]].
  - left. constructor.
  - destruct (is_line_terminator c) eqn:Hc.
    + right. by exists [], c, m.
    + left. by constructor.
  - right. by exists (c :: a), nl, b.
Qed.

(** A line that ends before its first figure stays without one. *)
Lemma first_figure_app_None (s suffix m ds post : jsstring) :
  first_figure s = None ->
  s = m ++ ds ++ percent :: post -> all_digits ds -> ds <> [] ->
  first_figure (s ++ suffix) = None.
Proof.
  intros Hf Hs Hds Hne.
  destruct (one_line_or_split m) as [Hm|(a & nl & b & -> & Hnl)].
  - exfalso. by eapply first_figure_None.
  - subst s.
    assert ((a ++ nl :: b) ++ ds ++ percent :: post
            = a ++ nl :: (b ++ ds ++ percent :: post)) as E1
      by (by rewrite <- app_assoc).
    assert (((a ++ nl :: b) ++ ds ++ percent :: post) ++ suffix
            = a ++ nl :: ((b ++ ds ++ percent :: post) ++ suffix)) as E2
      by (rewrite E1; by rewrite <- app_assoc).
    rewrite E1 in Hf. rewrite E2.
    rewrite first_figure_line in Hf by done. by rewrite first_figure_line.
Qed.

Lemma is_prefix_app_true (l t suffix : jsstring) :
  is_prefix l t = true -> is_prefix l (t ++ suffix) = true.
Proof.
  intros H%is_prefix_split. rewrite H, <- app_assoc. apply is_prefix_app.
Qed.

Lemma is_prefix_app_false (l t suffix : jsstring) :
  is_prefix l t = false -> (length l <= length t)%nat ->
  is_prefix l (t ++ suffix) = false.
Proof.
  revert t. induction l as [|a l IH]; intros [|b t]; cbn; try done; try lia.
  destruct (a =? b)%N; cbn; [|done]. intros H Hlen. apply IH; [done|lia].
Qed.

Lemma head_search_app (label t suffix ds : jsstring) :
  head_search label t = Some ds -> head_search label (t ++ suffix) = Some ds.
Proof.
  unfold head_search. destruct (is_prefix label t) eqn:Hp; [|done].
  rewrite (is_prefix_app_true _ _ suffix Hp).
  rewrite drop_app_le by (by apply is_prefix_length).
  apply first_figure_app.
Qed.

Lemma head_search_app_None (label t suffix pre mid ds post : jsstring) (c : char16) :
  head_search label (c :: t) = None ->
  figure label t pre mid ds post ->
  head_search label ((c :: t) ++ suffix) = None.
Proof.
  intros Hh (Ht & _ & Hds & Hne). unfold head_search in *.
  assert (length label <= length (c :: pre ++ label ++ mid))%nat as Hlen
    by (cbn; rewrite !length_app; lia).
  assert (c :: t = (c :: pre ++ label ++ mid) ++ ds ++ percent :: post) as Hct
    by (rewrite Ht; cbn; by rewrite <- !app_assoc).
  destruct (is_prefix label (c :: t)) eqn:Hp.
  - rewrite (is_prefix_app_true _ _ suffix Hp).
    rewrite drop_app_le by (by apply is_prefix_length).
    eapply (first_figure_app_None _ suffix (drop (length label) (c :: pre ++ label ++ mid)));
      [done| |done|done].
    rewrite Hct. by rewrite drop_app_le.
  - rewrite is_prefix_app_false; [done|done|].
    rewrite Hct, length_app. lia.
Qed.

Lemma head_search_nil (label : jsstring) : head_search label [] = None.
Proof. by destruct label. Qed.

(** A value that has been found is not changed by text added at the end. *)
Lemma label_search_app (label text suffix ds : jsstring) :
  label_search label text = Some ds -> label_search label (text ++ suffix) = Some ds.
Proof.
  induction text as [|c text IH]; rewrite label_search_unfold.
  - by rewrite head_search_nil.
  - rewrite (label_search_unfold label ((c :: text) ++ suffix)).
    destruct (head_search label (c :: text)) as [ds0|] eqn:E.
    + intros [= ->]. by rewrite (head_search_app _ _ suffix _ E).
    + intros Hs. pose proof Hs as (pre & mid & post & Hf & _)%label_search_Some.
      rewrite (head_search_app_None _ _ suffix _ _ _ _ _ E Hf). cbn [app]. by apply IH.
Qed.

(** X16. Once the pattern of a searched key matches a text, whatever is
    appended to the text leaves that key's value unchanged. *)
Theorem found_value_stable (cat : category) (key : string)
    (label text suffix : jsstring) :
  (cat, key, label) ∈ searched_keys ->
  string_match text (label_pattern label) <> None ->
  category_map cat (parseDemographicResponse (text ++ suffix)) !! key
  = category_map cat (parseDemographicResponse text) !! key.
Proof.
  intros Hin Hm. rewrite string_match_label in Hm.
  rewrite !(parse_searched _ _ _ _ Hin), !extractPercentage_label.
  destruct (label_search label text) as [ds|] eqn:E; [|done].
  by rewrite (label_search_app _ _ suffix _ E).
Qed.

Lemma found_value_stable_witness :
  gender (parseDemographicResponse (js "Male: 7%" ++ js " of all; Male: 99%")) !! "male"
  = gender (parseDemographicResponse (js "Male: 7%")) !! "male".
Proof.
  assert ((Gender, "male", js "Male") ∈ searched_keys) as Hin by find_key.
  apply (found_value_stable Gender "male" (js "Male") (js "Male: 7%")
           (js " of all; Male: 99%") Hin).
  vm_compute. discriminate.
Defined.

(** X17. What stands between a label and the figure is not inspected: as
    long as it holds no digit and no line terminator, the key takes the
    number, even when other labels stand in between. *)
Theorem text_between_not_inspected (cat : category) (key : string)
    (label mid ds post : jsstring) :
  (cat, key, label) ∈ searched_keys ->
  Forall (fun c => is_digit c = false) mid -> one_line mid ->
  all_digits ds -> ds <> [] ->
  category_map cat (parseDemographicResponse (label ++ mid ++ ds ++ percent :: post)) !! key
  = Some (of_Z (decimal ds)).
Proof.
  intros Hin Hnd Hmid Hds Hne.
  rewrite (parse_searched _ _ _ _ Hin).
  f_equal. eapply extractPercentage_leftmost. by apply leftmost_at_start.
Qed.

Lemma text_between_not_inspected_witness :
  gender (parseDemographicResponse (js "Male and Female: 48%")) !! "male" = Some (Fin 48).
Proof.
  assert ((Gender, "male", js "Male") ∈ searched_keys) as Hin by find_key.
  exact (text_between_not_inspected Gender "male" (js "Male") (js " and Female: ")
           (js "48") [] Hin
           ltac:(eval_js; by repeat constructor) ltac:(eval_js; by repeat constructor)
           ltac:(eval_js; by repeat constructor) ltac:(done)).
Defined.
